(** * Waifu Catcher bot: the catch / claim / inventory / leaderboard handlers

    A shallow embedding of [main.py].  The three MongoDB collections the
    handlers touch ([db.waifus], [db.users], [db.pending]) are lists of
    documents in natural (insertion) order; a handler is a function from the
    store to the store and an outcome (the reply sent, or the exception
    raised).  The clock ([time.time()]), the random source ([random.choice],
    [$sample]) and the messaging transport ([bot.get_chat], [answer_photo])
    are inputs of the handlers.  Handlers run one after the other; the
    interleaving of two handlers of one user is not modelled.

    Python [str] values are modelled as their UTF-8 byte strings; comparing
    UTF-8 byte strings lexicographically agrees with comparing [str] values
    by code point, which is what [sorted] does on the rarity labels. *)

From Stdlib Require Import ZArith List String Ascii Bool Lia.
From Stdlib Require Import Sorted Permutation QArith DecimalString OrdersEx.
Import ListNotations.
Open Scope string_scope.
Open Scope Z_scope.
Open Scope list_scope.

(* ================================================================== *)
(** ** Documents *)

(** [db.waifus]: [{waifu_id, name, img, tags}], the four keys
    [ensure_waifus_loaded] writes.  The handlers are modelled on catalog
    documents whose id and name are strings and whose image is a string or
    null.  The seeding can store any JSON value there (see [WaifuDoc]
    below); with an id that is not a string the driver refuses the write of
    [/claim], an exception of the driver that [Exn] does not have. *)
Record Waifu := mkWaifu {
  w_waifu_id : string;
  w_name : string;
  w_img : option string;
  w_tags : list string
}.

(** [db.pending]: [{user_id, waifu_id, name, img, rarity, ts}].
    [cmd_catch] tests ["ts" in pending], so [ts] may be absent. *)
Record Pending := mkPending {
  p_user_id : Z;
  p_waifu_id : string;
  p_name : string;
  p_img : option string;
  p_rarity : string;
  p_ts : option Z
}.

(** An entry of [waifus_map]: [{name, img, rarity, count}].  The handlers
    read [count] and [rarity] through [.get] with a default, so a field can
    be absent ([None]); reading an absent field with [info['name']] raises
    [KeyError]. *)
Record Entry := mkEntry {
  e_name : option string;
  e_img : option string;
  e_rarity : option string;
  e_count : option Z
}.

(** A Python dict keeps its keys unique and in insertion order. *)
Definition dict (V : Type) := list (string * V).

(** [db.users]: [{user_id, last_catch, waifus_map}]; the last two are read
    with [.get] and may be absent. *)
Record UserDoc := mkUser {
  u_user_id : Z;
  u_last_catch : option Z;
  u_waifus_map : option (dict Entry)
}.

Record DB := mkDB {
  db_waifus : list Waifu;
  db_users : list UserDoc;
  db_pending : list Pending
}.

(* ================================================================== *)
(** ** Python dict operations used on [waifus_map] *)

Section Dict.
Context {V : Type}.

(** [d.get(k)] *)
Fixpoint dict_get (k : string) (d : dict V) : option V :=
  match d with
  | [] => None
  | (k', v) :: d' => if String.eqb k k' then Some v else dict_get k d'
  end.

(** [k in d] *)
Definition dict_mem (k : string) (d : dict V) : bool :=
  match dict_get k d with Some _ => true | None => false end.

(** [d[k] = v]: an existing key keeps its position, a new key goes last. *)
Fixpoint dict_set (k : string) (v : V) (d : dict V) : dict V :=
  match d with
  | [] => [(k, v)]
  | (k', v') :: d' =>
      if String.eqb k k' then (k', v) :: d' else (k', v') :: dict_set k v d'
  end.

Definition dict_values (d : dict V) : list V := map snd d.
End Dict.

(* ================================================================== *)
(** ** MongoDB collection operations *)

Section Collection.
Context {A : Type}.

(** [find_one(filter)]: the first matching document, or [None]. *)
Definition find_one (p : A -> bool) (c : list A) : option A := find p c.

(** [update_one(filter, update)]: the first matching document is updated;
    nothing happens when there is none. *)
Fixpoint update_one (p : A -> bool) (f : A -> A) (c : list A) : list A :=
  match c with
  | [] => []
  | d :: c' => if p d then f d :: c' else d :: update_one p f c'
  end.

(** [update_one(filter, update, upsert=True)]: when no document matches,
    the document [ins] (the filter's fields and the update applied to
    them) is inserted. *)
Definition update_one_upsert (p : A -> bool) (f : A -> A) (ins : A)
    (c : list A) : list A :=
  if existsb p c then update_one p f c else c ++ [ins].

(** [delete_one(filter)]: the first matching document is removed. *)
Fixpoint delete_one (p : A -> bool) (c : list A) : list A :=
  match c with
  | [] => []
  | d :: c' => if p d then c' else d :: delete_one p c'
  end.

(** [cursor.to_list(length=n)] *)
Definition to_list (n : nat) (c : list A) : list A := firstn n c.

(** [count_documents({})] *)
Definition count_documents (c : list A) : Z := Z.of_nat (List.length c).
End Collection.

Definition user_is (user_id : Z) (d : UserDoc) : bool := u_user_id d =? user_id.
Definition pending_is (user_id : Z) (d : Pending) : bool := p_user_id d =? user_id.

(* ================================================================== *)
(** ** Settings *)

Definition RARITY_WEIGHTS : list (string * nat) :=
  [ ("Legendary", 2%nat); ("Epic", 8%nat); ("Rare", 20%nat); ("Common", 70%nat) ].

(** [[r] * w] *)
Definition repeat_label (r : string) (w : nat) : list string := repeat r w.

(** The loop [for r, w in RARITY_WEIGHTS: items.extend([r] * w)]. *)
Fixpoint build_rarity_choice_loop (ws : list (string * nat)) (items : list string)
    : list string :=
  match ws with
  | [] => items
  | (r, w) :: ws' => build_rarity_choice_loop ws' (items ++ repeat_label r w)
  end.

Definition build_rarity_choice : list string :=
  build_rarity_choice_loop RARITY_WEIGHTS [].

Definition RARITY_CHOICES : list string := build_rarity_choice.

(** [random.choice(seq)] is [seq[randbelow(len(seq))]] and raises
    [IndexError] on an empty sequence.  The random source is a natural
    number [r], reduced below the length. *)
Definition random_choice {A : Type} (r : nat) (seq : list A) : option A :=
  match seq with
  | [] => None
  | _ => nth_error seq (Nat.modulo r (List.length seq))
  end.

Definition pick_rarity (r : nat) : option string := random_choice r RARITY_CHOICES.

(** [choose_random_waifu_async]: [None] on an empty collection, otherwise
    the one document [$sample] draws. *)
Definition choose_random_waifu_async (r : nat) (db : DB) : option Waifu :=
  if count_documents (db_waifus db) =? 0 then None
  else match nth_error (db_waifus db) (Nat.modulo r (List.length (db_waifus db))) with
       | Some d => Some d
       | None => None
       end.

(* ================================================================== *)
(** ** Text *)

Definition utf8 (bytes : list nat) : string :=
  string_of_list_ascii (map ascii_of_nat bytes).

Definition nl : string := utf8 [10%nat].
Definition emdash : string := utf8 [226; 128; 148]%nat.
Definition hourglass : string := utf8 [226; 143; 179]%nat.
Definition flower_cards : string := utf8 [240; 159; 142; 180]%nat.
Definition red_heart : string := utf8 [226; 157; 164; 239; 184; 143]%nat.
Definition star : string := utf8 [226; 173; 144]%nat.
Definition cross_mark : string := utf8 [226; 157; 140]%nat.
Definition check_mark : string := utf8 [226; 156; 133]%nat.
Definition package : string := utf8 [240; 159; 147; 166]%nat.
Definition trophy : string := utf8 [240; 159; 143; 134]%nat.
Definition fire : string := utf8 [240; 159; 148; 165]%nat.
Definition bust : string := utf8 [240; 159; 145; 164]%nat.

(** [str(n)] for a Python int. *)
Definition str_int (n : Z) : string := NilZero.string_of_int (Z.to_int n).

(** ["\n".join(lines)] *)
Definition join_lines (lines : list string) : string := String.concat nl lines.

(** Truthiness of [w.get("img")]: neither [None] nor the empty string. *)
Definition truthy (s : option string) : bool :=
  match s with
  | Some s' => negb (String.eqb s' "")
  | None => false
  end.

(* ================================================================== *)
(** ** Handlers: state and exceptions *)

Inductive Exn :=
| KeyError (key : string)
| IndexError.

(** What a handler sends: [msg.answer(text)] or
    [msg.answer_photo(photo, caption)]. *)
Inductive Reply :=
| Answer (text : string)
| AnswerPhoto (photo : string) (caption : string).

(** A handler runs on the store and leaves a store and either the reply it
    sent or the exception that ended it; writes made before an exception
    stay. *)
Definition Handler (A : Type) : Type := DB -> DB * (Exn + A).

Definition ret {A : Type} (a : A) : Handler A := fun db => (db, inr a).

Definition raise {A : Type} (e : Exn) : Handler A := fun db => (db, inl e).

Definition bind {A B : Type} (m : Handler A) (k : A -> Handler B) : Handler B :=
  fun db =>
    match m db with
    | (db', inr a) => k a db'
    | (db', inl e) => (db', inl e)
    end.

Declare Scope handler_scope.
Delimit Scope handler_scope with handler.
Notation "x <- m ;; k" := (bind m (fun x => k))
  (at level 61, m at next level, right associativity) : handler_scope.
Notation "m ;; k" := (bind m (fun _ => k))
  (at level 61, right associativity) : handler_scope.
Open Scope handler_scope.

(** Reads and writes of the two collections. *)
Definition users_read {A : Type} (q : list UserDoc -> A) : Handler A :=
  fun db => (db, inr (q (db_users db))).

Definition pending_read {A : Type} (q : list Pending -> A) : Handler A :=
  fun db => (db, inr (q (db_pending db))).

Definition waifus_read {A : Type} (q : DB -> A) : Handler A :=
  fun db => (db, inr (q db)).

Definition users_write (f : list UserDoc -> list UserDoc) : Handler unit :=
  fun db => (mkDB (db_waifus db) (f (db_users db)) (db_pending db), inr tt).

Definition pending_write (f : list Pending -> list Pending) : Handler unit :=
  fun db => (mkDB (db_waifus db) (db_users db) (f (db_pending db)), inr tt).

(** [d[key]] on a field that may be absent. *)
Definition field {A : Type} (key : string) (v : option A) : Handler A :=
  match v with
  | Some a => ret a
  | None => raise (KeyError key)
  end.

Definition answer (text : string) : Handler Reply := ret (Answer text).

(** [x.get(key, default)] *)
Definition get_default {A : Type} (v : option A) (default : A) : A :=
  match v with
  | Some a => a
  | None => default
  end.

(** [user_doc.get("waifus_map", {}) if user_doc else {}] *)
Definition waifus_map_of (user_doc : option UserDoc) : dict Entry :=
  match user_doc with
  | Some d => get_default (u_waifus_map d) []
  | None => []
  end.

(** [userdoc.get("last_catch", 0) if userdoc else 0] *)
Definition last_catch_of (userdoc : option UserDoc) : Z :=
  match userdoc with
  | Some d => get_default (u_last_catch d) 0
  | None => 0
  end.

(* ================================================================== *)
(** ** [sorted(items, key=...)] *)

Section Sorted.
Context {A K : Type}.
Variable leb : K -> K -> bool.
Variable key : A -> K.

(** [x] stood before every element of [l] in the input, so it goes
    before the first element whose key is not smaller: the sort is
    stable, as Python's is. *)
Fixpoint insert_by (x : A) (l : list A) : list A :=
  match l with
  | [] => [x]
  | y :: l' => if leb (key x) (key y) then x :: l else y :: insert_by x l'
  end.

Definition sorted (l : list A) : list A := fold_right insert_by [] l.
End Sorted.

(** Python's order on the tuples [(int, str)]. *)
Definition tuple_leb (a b : Z * string) : bool :=
  (fst a <? fst b) || ((fst a =? fst b) && String.leb (snd a) (snd b)).

(** [sum(v.get("count", 0) for v in wm.values())] *)
Definition total_count (wm : dict Entry) : Z :=
  fold_left (fun acc v => acc + get_default (e_count v) 0) (dict_values wm) 0.

(* ================================================================== *)
(** ** Commands *)

Section Commands.
(** [COOLDOWN_SECONDS = int(os.getenv("COOLDOWN", "15"))] *)
Variable COOLDOWN_SECONDS : Z.

(** [bot.get_chat(uid).full_name], [None] when the call raises. *)
Variable get_chat : Z -> option string.

Definition wait_text (remain : Z) : string :=
  (hourglass ++ " Wait " ++ str_int remain ++ "s before catching again.")%string.

Definition no_waifus_text : string := "No waifus loaded yet. Contact the admin.".

Definition caption_text (name rarity : string) : string :=
  (flower_cards ++ " A Waifu appeared!" ++ nl ++ nl
   ++ red_heart ++ " Name: " ++ name ++ nl
   ++ star ++ " Rarity: " ++ rarity ++ nl ++ nl
   ++ "Use /claim to add her to your collection.")%string.

(** [/catch].  [now] is [int(time.time())], [r_waifu] and [r_rarity] the
    random draws, [photo_ok] whether [answer_photo] goes through. *)
Definition cmd_catch (user_id now : Z) (r_waifu r_rarity : nat)
    (photo_ok : bool) : Handler Reply :=
  pending <- pending_read (find_one (pending_is user_id)) ;;
  let last_ts :=
    match pending with
    | Some p => match p_ts p with Some ts => ts | None => 0 end
    | None => 0
    end in
  userdoc <- users_read (find_one (user_is user_id)) ;;
  let last_catch := last_catch_of userdoc in
  if now - last_catch <? COOLDOWN_SECONDS then
    let remain := COOLDOWN_SECONDS - (now - last_catch) in
    answer (wait_text remain)
  else
    w <- waifus_read (choose_random_waifu_async r_waifu) ;;
    match w with
    | None => answer no_waifus_text
    | Some w =>
        rarity <- match pick_rarity r_rarity with
                  | Some r => ret r
                  | None => raise IndexError
                  end ;;
        let doc := mkPending user_id (w_waifu_id w) (w_name w) (w_img w)
                     rarity (Some now) in
        pending_write
          (update_one_upsert (pending_is user_id) (fun _ => doc) doc) ;;
        users_write
          (update_one_upsert (user_is user_id)
             (fun d => mkUser (u_user_id d) (Some now) (u_waifus_map d))
             (mkUser user_id (Some now) None)) ;;
        let caption := caption_text (w_name w) rarity in
        if truthy (w_img w) then
          if photo_ok then ret (AnswerPhoto (get_default (w_img w) "") caption)
          else answer caption
        else answer caption
    end.

Definition nothing_to_claim_text : string :=
  (cross_mark ++ " You have no waifu to claim. Use /catch first.")%string.

Definition claimed_text (name rarity : string) (count : Z) : string :=
  (check_mark ++ " You claimed " ++ name ++ " (" ++ rarity
   ++ "). You now have " ++ str_int count ++ " of them.")%string.

(** The local dict [waifu_entry] of [cmd_claim]. *)
Record WaifuEntry := mkWaifuEntry {
  we_waifu_id : string;
  we_name : string;
  we_img : option string;
  we_rarity : string;
  we_claimed_ts : Z
}.

(** The [if wid in waifus_map: ... else: ...] of [cmd_claim]. *)
Definition claim_update (waifu_entry : WaifuEntry) (waifus_map : dict Entry)
    : dict Entry :=
  let wid := we_waifu_id waifu_entry in
  match dict_get wid waifus_map with
  | Some info =>
      dict_set wid
        (mkEntry (e_name info) (e_img info) (e_rarity info)
           (Some (get_default (e_count info) 1 + 1)))
        waifus_map
  | None =>
      dict_set wid
        (mkEntry (Some (we_name waifu_entry)) (we_img waifu_entry)
           (Some (we_rarity waifu_entry)) (Some 1))
        waifus_map
  end.

(** [/claim].  The first [update_one] carries an empty [$inc] and a
    [$setOnInsert]: it changes nothing in an existing user document and
    inserts [{user_id}] when there is none. *)
Definition cmd_claim (user_id now : Z) : Handler Reply :=
  pend <- pending_read (find_one (pending_is user_id)) ;;
  match pend with
  | None => answer nothing_to_claim_text
  | Some pend =>
      let waifu_entry :=
        mkWaifuEntry (p_waifu_id pend) (p_name pend) (p_img pend)
          (p_rarity pend) now in
      users_write
        (update_one_upsert (user_is user_id) (fun d => d)
           (mkUser user_id None None)) ;;
      user_doc <- users_read (find_one (user_is user_id)) ;;
      let waifus_map := waifus_map_of user_doc in
      let wid := we_waifu_id waifu_entry in
      let waifus_map := claim_update waifu_entry waifus_map in
      users_write
        (update_one (user_is user_id)
           (fun d => mkUser (u_user_id d) (u_last_catch d) (Some waifus_map))) ;;
      pending_write (delete_one (pending_is user_id)) ;;
      info <- field wid (dict_get wid waifus_map) ;;
      name <- field "name" (e_name info) ;;
      rarity <- field "rarity" (e_rarity info) ;;
      count <- field "count" (e_count info) ;;
      answer (claimed_text name rarity count)
  end.

Definition empty_collection_text : string :=
  (package ++ " Your collection is empty.")%string.

Definition collection_header : string :=
  (package ++ " Your collection:" ++ nl ++ nl)%string.

(** [f"{i}. {info['name']} — {info['rarity']} x{info['count']}"] *)
Definition inventory_line (i : Z) (name rarity : string) (count : Z) : string :=
  (str_int i ++ ". " ++ name ++ " " ++ emdash ++ " " ++ rarity
   ++ " x" ++ str_int count)%string.

(** The sort key [(-x[1].get("count",0), x[1].get("rarity",""))]. *)
Definition inventory_key (x : string * Entry) : Z * string :=
  (- get_default (e_count (snd x)) 0, get_default (e_rarity (snd x)) "").

(** The loop over [enumerate(sorted(...), 1)]; it stops after the line
    with [i >= 20]. *)
Fixpoint inventory_loop (i : Z) (items : list (string * Entry))
    (lines : list string) : Handler (list string) :=
  match items with
  | [] => ret lines
  | (wid, info) :: rest =>
      name <- field "name" (e_name info) ;;
      rarity <- field "rarity" (e_rarity info) ;;
      count <- field "count" (e_count info) ;;
      let lines := lines ++ [inventory_line i name rarity count] in
      if 20 <=? i then ret lines else inventory_loop (i + 1) rest lines
  end.

(** [/inventory] *)
Definition cmd_inventory (user_id : Z) : Handler Reply :=
  user_doc <- users_read (find_one (user_is user_id)) ;;
  let waifus_map := waifus_map_of user_doc in
  match waifus_map with
  | [] => answer empty_collection_text
  | _ =>
      lines <- inventory_loop 1 (sorted tuple_leb inventory_key waifus_map) [] ;;
      let txt := (collection_header ++ join_lines lines)%string in
      answer txt
  end.

Definition no_data_text : string := "No data yet.".

Definition leaderboard_header : string :=
  (trophy ++ " Leaderboard" ++ nl ++ nl)%string.

(** The loop [for d in docs] that fills [scores]. *)
Fixpoint leaderboard_scores (docs : list UserDoc) (scores : list (Z * Z))
    : list (Z * Z) :=
  match docs with
  | [] => scores
  | d :: docs' =>
      let wm := get_default (u_waifus_map d) [] in
      let total := total_count wm in
      if 0 <? total
      then leaderboard_scores docs' (scores ++ [(u_user_id d, total)])
      else leaderboard_scores docs' scores
  end.

(** [sorted(scores, key=lambda x: -x[1])[:10]] *)
Definition leaderboard_top (users : list UserDoc) : list (Z * Z) :=
  let docs := to_list 100 users in
  let scores := leaderboard_scores docs [] in
  firstn 10 (sorted Z.leb (fun x : Z * Z => - snd x) scores).

Definition leaderboard_line (rank : Z) (name : string) (score : Z) : string :=
  (str_int rank ++ ". " ++ name ++ " " ++ emdash ++ " " ++ str_int score)%string.

(** The loop over [enumerate(top, 1)]. *)
Fixpoint leaderboard_lines (rank : Z) (top : list (Z * Z)) (lines : list string)
    : list string :=
  match top with
  | [] => lines
  | (uid, score) :: top' =>
      let name := match get_chat uid with
                  | Some full_name => full_name
                  | None => str_int uid
                  end in
      leaderboard_lines (rank + 1) top'
        (lines ++ [leaderboard_line rank name score])
  end.

(** [/leaderboard] *)
Definition cmd_leaderboard : Handler Reply :=
  top <- users_read leaderboard_top ;;
  match top with
  | [] => answer no_data_text
  | _ =>
      let lines := leaderboard_lines 1 top [] in
      answer (leaderboard_header ++ join_lines lines)%string
  end.
(** [/start] *)
Definition start_text : string :=
  (fire ++ " Welcome to Waifu Catcher!" ++ nl ++ nl
   ++ "Commands:" ++ nl
   ++ "/catch - roll for a waifu (then /claim)" ++ nl
   ++ "/claim - claim your last rolled waifu" ++ nl
   ++ "/inventory - see your collection" ++ nl
   ++ "/profile - your stats" ++ nl
   ++ "/leaderboard - top collectors" ++ nl)%string.

Definition cmd_start : Handler Reply := answer start_text.

(** The loop [for info in waifus_map.values()] of [cmd_profile] that fills
    [rarity_counts]. *)
Fixpoint rarity_counts_loop (infos : list Entry) (rarity_counts : dict Z)
    : dict Z :=
  match infos with
  | [] => rarity_counts
  | info :: rest =>
      let k := get_default (e_rarity info) "Unknown" in
      rarity_counts_loop rest
        (dict_set k
           (get_default (dict_get k rarity_counts) 0
            + get_default (e_count info) 0)
           rarity_counts)
  end.

(** [f"{k}: {v}"] *)
Definition rarity_line (kv : string * Z) : string :=
  (fst kv ++ ": " ++ str_int (snd kv))%string.

Definition profile_text (total : Z) (rtext : string) : string :=
  (bust ++ " Profile" ++ nl ++ "Total waifus: " ++ str_int total ++ nl ++ nl
   ++ "Rarity counts:" ++ nl ++ rtext)%string.

(** [/profile] *)
Definition cmd_profile (user_id : Z) : Handler Reply :=
  user_doc <- users_read (find_one (user_is user_id)) ;;
  let waifus_map := waifus_map_of user_doc in
  let total := total_count waifus_map in
  let rarity_counts := rarity_counts_loop (dict_values waifus_map) [] in
  let joined := join_lines (map rarity_line rarity_counts) in
  let rtext := if String.eqb joined "" then "None" else joined in
  answer (profile_text total rtext).
End Commands.

(* ================================================================== *)
(** ** Startup: seeding [db.waifus] from [waifus.json]

    [ensure_waifus_loaded] writes documents whose fields are whatever JSON
    values the file holds, so the seeding is modelled on JSON values; the
    handlers above read the seeded documents with string ids and names.
    The inputs are the collection, and the parsed content of the file
    ([None] when the path does not exist). *)

(** What [json.load] returns; a number is its exact value. *)
#[local] Set Warnings "-register-all".
Inductive Json :=
| JNull
| JBool (b : bool)
| JNumber (q : Q)
| JString (s : string)
| JArray (items : list Json)
| JObject (members : dict Json).

(** Truthiness of a parsed value, as [a or b] tests it. *)
Definition json_truthy (v : Json) : bool :=
  match v with
  | JNull => false
  | JBool b => b
  | JNumber q => negb (Qeq_bool q 0)
  | JString s => negb (String.eqb s "")
  | JArray items => match items with [] => false | _ => true end
  | JObject members => match members with [] => false | _ => true end
  end.

(** [a or b] *)
Definition py_or (a b : Json) : Json := if json_truthy a then a else b.

(** A document of [db.waifus] as the seeding builds it. *)
Record WaifuDoc := mkWaifuDoc {
  wd_waifu_id : Json;
  wd_name : Json;
  wd_img : Json;
  wd_tags : Json
}.

(** What the seeding logs ([NothingInserted] when it logs nothing), or the
    exception that ends it. *)
Inductive SeedLog :=
| AlreadyPresent (existing : Z)
| FileNotFound
| NotAnArray
| Inserted (n : nat)
| NothingInserted
| AttributeError.

(** The dict [doc] built for one [item]; [None] when [item.get] raises,
    which it does on anything but a dict. *)
Definition seed_doc (item : Json) : option WaifuDoc :=
  match item with
  | JObject members =>
      Some (mkWaifuDoc
              (py_or (get_default (dict_get "id" members) JNull)
                     (get_default (dict_get "name" members) JNull))
              (get_default (dict_get "name" members) JNull)
              (get_default (dict_get "img" members) JNull)
              (get_default (dict_get "tags" members) (JArray [])))
  | _ => None
  end.

(** The loop [for item in data: ... docs.append(doc)]. *)
Fixpoint seed_docs (data : list Json) (docs : list WaifuDoc)
    : option (list WaifuDoc) :=
  match data with
  | [] => Some docs
  | item :: rest =>
      match seed_doc item with
      | Some doc => seed_docs rest (docs ++ [doc])
      | None => None
      end
  end.

Definition ensure_waifus_loaded (waifus : list WaifuDoc) (file : option Json)
    : list WaifuDoc * SeedLog :=
  let existing := count_documents waifus in
  if 0 <? existing then (waifus, AlreadyPresent existing)
  else
    match file with
    | None => (waifus, FileNotFound)
    | Some data =>
        match data with
        | JArray items =>
            match seed_docs items [] with
            | None => (waifus, AttributeError)
            | Some docs =>
                match docs with
                | [] => (waifus, NothingInserted)
                | _ => (waifus ++ docs, Inserted (List.length docs))
                end
            end
        | _ => (waifus, NotAnArray)
        end
    end.

(* ================================================================== *)
(** ** Vocabulary of the statements *)

(** *** The data model's invariants *)

(** The pending documents of one user. *)
Definition pending_of (user_id : Z) (c : list Pending) : list Pending :=
  filter (pending_is user_id) c.

(** At most one pending roll per user. *)
Definition at_most_one_pending (db : DB) : Prop :=
  forall user_id, (List.length (pending_of user_id (db_pending db)) <= 1)%nat.

(** An entry that carries every field the renderers read with [info[...]]. *)
Definition complete_entry (info : Entry) : Prop :=
  e_name info <> None /\ e_rarity info <> None /\ e_count info <> None.

(** *** The rarity pool as a distribution *)

Definition tier_names : list string := map fst RARITY_WEIGHTS.

(** How many of the draws [0 .. len(RARITY_CHOICES) - 1] give tier [t]. *)
Definition draws_giving (t : string) : nat :=
  List.length
    (filter (fun i => match pick_rarity i with
                      | Some t' => String.eqb t' t
                      | None => false
                      end)
       (seq 0 (List.length RARITY_CHOICES))).

(** The probability of tier [t] under a uniform draw. *)
Definition tier_probability (t : string) : Q :=
  Z.of_nat (draws_giving t) # Pos.of_nat (List.length RARITY_CHOICES).

Definition sum_weights : nat :=
  fold_right (fun rw acc => (snd rw + acc)%nat) 0%nat RARITY_WEIGHTS.

(** *** What the handlers write *)

(** The document [cmd_catch] writes to [db.pending]. *)
Definition rolled (user_id : Z) (w : Waifu) (rarity : string) (now : Z) : Pending :=
  mkPending user_id (w_waifu_id w) (w_name w) (w_img w) rarity (Some now).

Definition touch (now : Z) (d : UserDoc) : UserDoc :=
  mkUser (u_user_id d) (Some now) (u_waifus_map d).

Definition waifu_entry_of (pend : Pending) (now : Z) : WaifuEntry :=
  mkWaifuEntry (p_waifu_id pend) (p_name pend) (p_img pend) (p_rarity pend) now.

Definition set_waifus_map (m : dict Entry) (d : UserDoc) : UserDoc :=
  mkUser (u_user_id d) (u_last_catch d) (Some m).

(** The collection of a user as the handlers read it. *)
Definition collection (user_id : Z) (db : DB) : dict Entry :=
  waifus_map_of (find_one (user_is user_id) (db_users db)).

(** *** The order and the lines of [/inventory] *)

Definition entry_count (x : string * Entry) : Z := get_default (e_count (snd x)) 0.

Definition entry_rarity (x : string * Entry) : string :=
  get_default (e_rarity (snd x)) "".

Definition entry_name (x : string * Entry) : string :=
  get_default (e_name (snd x)) "".

(** Count descending, then rarity label ascending in the order of strings
    (byte by byte, a proper prefix first). *)
Definition inventory_before (x y : string * Entry) : Prop :=
  entry_count x > entry_count y
  \/ (entry_count x = entry_count y
      /\ String.leb (entry_rarity x) (entry_rarity y) = true).

(** The lines ["{i}. {name} — {rarity} x{count}"], numbered from [i]. *)
Fixpoint numbered_lines (i : Z) (items : list (string * Entry)) : list string :=
  match items with
  | [] => []
  | x :: rest =>
      inventory_line i (entry_name x) (entry_rarity x) (entry_count x)
      :: numbered_lines (i + 1) rest
  end.

(** *** Texts as the user reads them *)

(** The decimal notation of an integer, as [str] and [{...}] print it. *)
Definition decimal (n : Z) : string := NilZero.string_of_int (Z.to_int n).

Definition line_feed : string := String "010" "".

(** *** The totals of [/leaderboard] *)

(** The total [cmd_leaderboard] computes for a user document. *)
Definition user_total (d : UserDoc) : Z := total_count (get_default (u_waifus_map d) []).

(** *** Claiming an owned waifu, with the roll written over the entry *)

(** The claim adds 1 to the count and stores the pending roll's name,
    image and rarity in the entry. *)
Definition claim_overwrites_entry (user_id now : Z) (db : DB) : Prop :=
  forall pend info,
    find_one (pending_is user_id) (db_pending db) = Some pend ->
    dict_get (p_waifu_id pend) (collection user_id db) = Some info ->
    dict_get (p_waifu_id pend) (collection user_id (fst (cmd_claim user_id now db)))
    = Some (mkEntry (Some (p_name pend)) (p_img pend) (Some (p_rarity pend))
              (Some (get_default (e_count info) 1 + 1))).

(** *** Concrete stores *)

(** User 7 owns "w1" as a Common and has rolled it again as a Legendary. *)
Definition db_reroll : DB :=
  mkDB [mkWaifu "w1" "Aria" None []]
    [mkUser 7 (Some 100)
       (Some [("w1", mkEntry (Some "Aria") None (Some "Common") (Some 1))])]
    [mkPending 7 "w1" "Aria" None "Legendary" (Some 100)].

(** User 7 owns "w1" through a document that carries no count. *)
Definition db_legacy : DB :=
  mkDB [mkWaifu "w1" "Aria" None []]
    [mkUser 7 (Some 100)
       (Some [("w1", mkEntry (Some "Aria") None (Some "Common") None)])]
    [mkPending 7 "w1" "Aria" None "Rare" (Some 100)].

Definition db_two : DB :=
  mkDB [mkWaifu "w1" "Aria" None []; mkWaifu "w2" "Bea" (Some "http://img/bea") []]
    [] [].

Definition db_shelf : DB :=
  mkDB []
    [mkUser 1 None
       (Some [("a", mkEntry (Some "Ayu") None (Some "Rare") (Some 1));
              ("b", mkEntry (Some "Bea") None (Some "Legendary") (Some 1));
              ("c", mkEntry (Some "Cia") None (Some "Common") (Some 3));
              ("d", mkEntry (Some "Dee") None (Some "Common") (Some 1))])]
    [].

Definition db_board : DB :=
  mkDB []
    [mkUser 1 None (Some [("a", mkEntry (Some "Ayu") None (Some "Rare") (Some 2))]);
     mkUser 2 (Some 50) None;
     mkUser 3 None (Some [("a", mkEntry (Some "Ayu") None (Some "Epic") (Some 1));
                          ("b", mkEntry (Some "Bea") None (Some "Common") (Some 4))])]
    [].

(** A collection of 21 entries, counts 21 down to 1; the last has no name. *)
Definition db_long_shelf : DB :=
  mkDB []
    [mkUser 1 None
       (Some (map (fun i : nat =>
                     (str_int (Z.of_nat i),
                      mkEntry (Some "Aria") None (Some "Rare")
                        (Some (21 - Z.of_nat i))))
                (seq 0 20)
              ++ [("last", mkEntry None None (Some "Rare") (Some 1))]))]
    [].

(** Two Rare entries and one without rarity. *)
Definition db_mixed : DB :=
  mkDB []
    [mkUser 1 None
       (Some [("a", mkEntry (Some "Ayu") None (Some "Rare") (Some 2));
              ("b", mkEntry (Some "Bea") None None (Some 1));
              ("c", mkEntry (Some "Cia") None (Some "Rare") (Some 3))])]
    [].

(** *** The order a sort key induces *)

Section SortedOrder.
Context {A K : Type}.
Variable leb : K -> K -> bool.
Variable key : A -> K.

Definition key_le (x y : A) : Prop := leb (key x) (key y) = true.

(** The elements whose key compares equal to [k]. *)
Definition key_eqv (k : K) (y : A) : bool := leb k (key y) && leb (key y) k.

End SortedOrder.

(** *** Commands handled one after the other *)

Inductive Command :=
| Catch (user_id now : Z) (r_waifu r_rarity : nat) (photo_ok : bool)
| Claim (user_id now : Z)
| Inventory (user_id : Z)
| Leaderboard
| Profile (user_id : Z)
| Start.

Section Run.
Variable COOLDOWN_SECONDS : Z.
Variable get_chat : Z -> option string.

Definition handle (c : Command) : Handler Reply :=
  match c with
  | Catch user_id now r_waifu r_rarity photo_ok =>
      cmd_catch COOLDOWN_SECONDS user_id now r_waifu r_rarity photo_ok
  | Claim user_id now => cmd_claim user_id now
  | Inventory user_id => cmd_inventory user_id
  | Leaderboard => cmd_leaderboard get_chat
  | Profile user_id => cmd_profile user_id
  | Start => cmd_start
  end.

Definition handle_all (cs : list Command) (db : DB) : DB :=
  fold_left (fun db c => fst (handle c db)) cs db.

End Run.

(** *** Whose documents a command works on *)

Definition command_user (c : Command) : option Z :=
  match c with
  | Catch user_id _ _ _ _ => Some user_id
  | Claim user_id _ => Some user_id
  | Inventory user_id => Some user_id
  | Profile user_id => Some user_id
  | Leaderboard => None
  | Start => None
  end.

(** The documents of one user in [db.users]. *)
Definition users_of (user_id : Z) (c : list UserDoc) : list UserDoc :=
  filter (user_is user_id) c.

(** *** Counting what is owned *)

(** How many of [k] the collection [m] holds, as [cmd_claim] reads it: an
    entry without count stands for 1, no entry for 0. *)
Definition owned_count (k : string) (m : dict Entry) : Z :=
  match dict_get k m with
  | Some info => get_default (e_count info) 1
  | None => 0
  end.

(** [info'] is [info] with a count that is no smaller. *)
Definition grown_from (info info' : Entry) : Prop :=
  e_name info' = e_name info
  /\ e_img info' = e_img info
  /\ e_rarity info' = e_rarity info
  /\ get_default (e_count info) 1 <= get_default (e_count info') 1.

(** [sum(info.get("count", 0) for info in infos)] *)
Definition sum_counts (infos : list Entry) : Z :=
  fold_left (fun acc v => acc + get_default (e_count v) 0) infos 0.

(** The label [cmd_profile] files an entry under. *)
Definition label_of (info : Entry) : string :=
  get_default (e_rarity info) "Unknown".

Definition with_label (r : string) (infos : list Entry) : list Entry :=
  filter (fun info => String.eqb (label_of info) r) infos.

(** The sum of the values of [rarity_counts]. *)
Definition sum_values (rarity_counts : dict Z) : Z :=
  fold_right (fun kv acc => snd kv + acc) 0 rarity_counts.

(** *** Rolling and claiming again and again *)

(** One round: the clock of the catch, the clock of the claim and the
    draws of the catch. *)
Record Round := mkRound {
  r_catch_at : Z;
  r_claim_at : Z;
  r_waifu_draw : nat;
  r_rarity_draw : nat;
  r_photo_ok : bool
}.

Definition play_round (COOLDOWN_SECONDS user_id : Z) (db : DB) (r : Round) : DB :=
  fst (cmd_claim user_id (r_claim_at r)
         (fst (cmd_catch COOLDOWN_SECONDS user_id (r_catch_at r)
                 (r_waifu_draw r) (r_rarity_draw r) (r_photo_ok r) db))).

Definition play_rounds (COOLDOWN_SECONDS user_id : Z) (rounds : list Round)
    (db : DB) : DB :=
  fold_left (play_round COOLDOWN_SECONDS user_id) rounds db.

(** Every catch comes at least the cooldown after the roll before it. *)
Fixpoint spaced (COOLDOWN_SECONDS last : Z) (rounds : list Round) : Prop :=
  match rounds with
  | [] => True
  | r :: rest =>
      COOLDOWN_SECONDS <= r_catch_at r - last
      /\ spaced COOLDOWN_SECONDS (r_catch_at r) rest
  end.

(** *** Stores the handlers themselves have written *)

(** An entry as [cmd_claim] writes it: a name, one of the four rarity
    labels, a count of at least 1. *)
Definition written_entry (info : Entry) : Prop :=
  e_name info <> None
  /\ (exists r, e_rarity info = Some r /\ In r tier_names)
  /\ (exists c, e_count info = Some c /\ 1 <= c).

(** Every pending roll has one of the four rarity labels and every entry of
    every collection is as [cmd_claim] writes it. *)
Definition written_store (db : DB) : Prop :=
  (forall p, In p (db_pending db) -> In (p_rarity p) tier_names)
  /\ (forall d wm, In d (db_users db) -> u_waifus_map d = Some wm ->
       Forall written_entry (dict_values wm)).

(** The pending roll of a user carries the user's [last_catch] as [ts]. *)
Definition pending_in_step (db : DB) : Prop :=
  forall user_id,
    match pending_of user_id (db_pending db) with
    | [] => True
    | [p] =>
        exists d now,
          find_one (user_is user_id) (db_users db) = Some d
          /\ u_last_catch d = Some now
          /\ p_ts p = Some now
    | _ => False
    end.

(** *** The ranking before it is cut to ten *)

Definition leaderboard_ranked (users : list UserDoc) : list (Z * Z) :=
  sorted Z.leb (fun x : Z * Z => - snd x)
    (leaderboard_scores (to_list 100 users) []).

(** *** Seeding *)

Definition is_object (item : Json) : Prop :=
  match item with
  | JObject _ => True
  | _ => False
  end.

(* ================================================================== *)
(** ** Facts about the collection operations *)

Section CollectionFacts.
Context {A : Type}.
Variable p : A -> bool.

Lemma find_one_none_existsb (c : list A) :
  find_one p c = None <-> existsb p c = false.
Proof.
  unfold find_one. induction c as [|d c IH]; simpl.
  - tauto.
  - destruct (p d); simpl; [split; discriminate | exact IH].
Qed.

Lemma find_one_update_one (f : A -> A) (c : list A) :
  (forall d, p d = true -> p (f d) = true) ->
  find_one p (update_one p f c) = option_map f (find_one p c).
Proof.
  intros Hf. unfold find_one. induction c as [|d c IH]; simpl; [reflexivity|].
  destruct (p d) eqn:E; simpl.
  - now rewrite (Hf d E).
  - now rewrite E.
Qed.

Lemma find_one_app_none (c : list A) (d : A) :
  find_one p c = None -> p d = true -> find_one p (c ++ [d]) = Some d.
Proof.
  unfold find_one. induction c as [|x c IH]; simpl; intros Hn Hd.
  - now rewrite Hd.
  - destruct (p x); [discriminate | auto].
Qed.

Lemma find_one_upsert (f : A -> A) (ins : A) (c : list A) :
  (forall d, p d = true -> p (f d) = true) -> p ins = true ->
  find_one p (update_one_upsert p f ins c)
  = Some (match find_one p c with Some d => f d | None => ins end).
Proof.
  intros Hf Hins. unfold update_one_upsert.
  destruct (find_one p c) as [d|] eqn:E.
  - assert (Hex : existsb p c = true).
    { destruct (existsb p c) eqn:X; [reflexivity|].
      apply find_one_none_existsb in X. congruence. }
    rewrite Hex, find_one_update_one, E by assumption. reflexivity.
  - assert (Hex : existsb p c = false) by now apply find_one_none_existsb.
    rewrite Hex. now apply find_one_app_none.
Qed.

Lemma filter_update_one_other (q : A -> bool) (f : A -> A) (c : list A) :
  (forall d, p d = true -> q d = false /\ q (f d) = false) ->
  filter q (update_one p f c) = filter q c.
Proof.
  intros H. induction c as [|d c IH]; simpl; [reflexivity|].
  destruct (p d) eqn:E; simpl.
  - destruct (H d E) as [H1 H2]. now rewrite H1, H2.
  - now rewrite IH.
Qed.

Lemma filter_delete_one_other (q : A -> bool) (c : list A) :
  (forall d, p d = true -> q d = false) ->
  filter q (delete_one p c) = filter q c.
Proof.
  intros H. induction c as [|d c IH]; simpl; [reflexivity|].
  destruct (p d) eqn:E; simpl.
  - now rewrite (H d E).
  - now rewrite IH.
Qed.

(** [update_one] with a constant update on a collection holding at most
    one match leaves exactly that document as the match. *)
Lemma filter_update_one_self (d' : A) (c : list A) :
  p d' = true -> existsb p c = true ->
  (List.length (filter p c) <= 1)%nat ->
  filter p (update_one p (fun _ => d') c) = [d'].
Proof.
  intros Hd'. induction c as [|d c IH]; simpl; [discriminate|].
  destruct (p d) eqn:E; simpl.
  - intros _ Hlen. rewrite Hd'.
    destruct (filter p c); [reflexivity | simpl in Hlen; lia].
  - intros Hex Hlen. rewrite E. auto.
Qed.

Lemma filter_none (c : list A) :
  existsb p c = false -> filter p c = [].
Proof.
  induction c as [|d c IH]; simpl; [reflexivity|].
  destruct (p d); simpl; [discriminate | exact IH].
Qed.

Lemma filter_delete_one_self (c : list A) :
  (List.length (filter p c) <= 1)%nat ->
  filter p (delete_one p c) = [].
Proof.
  induction c as [|d c IH]; simpl; [reflexivity|].
  destruct (p d) eqn:E; simpl.
  - intros Hlen. destruct (filter p c); [reflexivity | simpl in Hlen; lia].
  - rewrite E. exact IH.
Qed.

Lemma find_one_filter (c : list A) :
  find_one p c = hd_error (filter p c).
Proof.
  unfold find_one. induction c as [|d c IH]; simpl; [reflexivity|].
  destruct (p d); [reflexivity | exact IH].
Qed.
End CollectionFacts.

Lemma pending_is_other (u v : Z) (d : Pending) :
  u <> v -> pending_is u d = true -> pending_is v d = false.
Proof.
  unfold pending_is. intros Hne H. apply Z.eqb_eq in H. apply Z.eqb_neq. congruence.
Qed.

(* ================================================================== *)
(** ** Facts about dicts *)

Section DictFacts.
Context {V : Type}.

Lemma dict_get_set_same (k : string) (v : V) (d : dict V) :
  dict_get k (dict_set k v d) = Some v.
Proof.
  induction d as [|[k' v'] d IH]; simpl.
  - now rewrite String.eqb_refl.
  - destruct (String.eqb k k') eqn:E; simpl; rewrite E; [reflexivity | exact IH].
Qed.

Lemma dict_get_set_other (k k0 : string) (v : V) (d : dict V) :
  k0 <> k -> dict_get k0 (dict_set k v d) = dict_get k0 d.
Proof.
  intros Hne. induction d as [|[k' v'] d IH]; simpl.
  - apply String.eqb_neq in Hne. now rewrite Hne.
  - destruct (String.eqb k k') eqn:E; simpl.
    + apply String.eqb_eq in E. subst k'.
      apply String.eqb_neq in Hne. now rewrite Hne.
    + now rewrite IH.
Qed.
End DictFacts.

(* ================================================================== *)
(** ** The rarity pool *)

Lemma RARITY_CHOICES_length : List.length RARITY_CHOICES = 100%nat.
Proof. reflexivity. Qed.

Lemma pick_rarity_mod (r : nat) :
pick_rarity r = nth_error RARITY_CHOICES (Nat.modulo r 100).
Proof. reflexivity. Qed.

Lemma pick_rarity_in_pool (r : nat) :
  exists t, pick_rarity r = Some t /\ In t tier_names.
Proof.
  rewrite pick_rarity_mod.
  assert (Hlt : (Nat.modulo r 100 < 100)%nat) by (apply Nat.mod_upper_bound; lia).
  assert (Hall : forallb (fun i => match nth_error RARITY_CHOICES i with
                                   | Some t => existsb (String.eqb t) tier_names
                                   | None => false
                                   end) (seq 0 100) = true) by (vm_compute; reflexivity).
  rewrite forallb_forall in Hall.
  specialize (Hall (Nat.modulo r 100)).
  assert (Hin : In (Nat.modulo r 100) (seq 0 100)) by (apply in_seq; lia).
  specialize (Hall Hin).
  destruct (nth_error RARITY_CHOICES (Nat.modulo r 100)) as [t|]; [|discriminate].
  exists t. split; [reflexivity|].
  apply existsb_exists in Hall. destruct Hall as [t' [Ht' Heq]].
  apply String.eqb_eq in Heq. now subst.
Qed.

(* ================================================================== *)
(** ** Running [cmd_catch] *)

Lemma cmd_catch_on_cooldown (CD user_id now : Z) (rw rr : nat) (ok : bool) (db : DB) :
  now - last_catch_of (find_one (user_is user_id) (db_users db)) < CD ->
  cmd_catch CD user_id now rw rr ok db
  = (db, inr (Answer (wait_text
       (CD - (now - last_catch_of (find_one (user_is user_id) (db_users db))))))).
Proof.
  intros H. apply Z.ltb_lt in H.
  unfold cmd_catch, bind, pending_read, users_read. simpl.
  rewrite H. reflexivity.
Qed.

Lemma cmd_catch_no_waifus (CD user_id now : Z) (rw rr : nat) (ok : bool) (db : DB) :
  CD <= now - last_catch_of (find_one (user_is user_id) (db_users db)) ->
  choose_random_waifu_async rw db = None ->
  cmd_catch CD user_id now rw rr ok db = (db, inr (Answer no_waifus_text)).
Proof.
  intros H Hw. apply Z.ltb_ge in H.
  unfold cmd_catch, bind, pending_read, users_read, waifus_read. simpl.
  rewrite H, Hw. reflexivity.
Qed.

Lemma cmd_catch_rolls (CD user_id now : Z) (rw rr : nat) (ok : bool) (db : DB)
    (w : Waifu) (rarity : string) :
  CD <= now - last_catch_of (find_one (user_is user_id) (db_users db)) ->
  choose_random_waifu_async rw db = Some w ->
  pick_rarity rr = Some rarity ->
  fst (cmd_catch CD user_id now rw rr ok db)
  = mkDB (db_waifus db)
      (update_one_upsert (user_is user_id) (touch now)
         (mkUser user_id (Some now) None) (db_users db))
      (update_one_upsert (pending_is user_id)
         (fun _ => rolled user_id w rarity now) (rolled user_id w rarity now)
         (db_pending db))
  /\ exists reply, snd (cmd_catch CD user_id now rw rr ok db) = inr reply.
Proof.
  intros H Hw Hr. apply Z.ltb_ge in H.
  unfold cmd_catch, bind, pending_read, users_read, waifus_read. simpl.
  rewrite H, Hw, Hr. unfold ret, pending_write, users_write, answer, ret. simpl.
  split.
  - destruct (truthy (w_img w)), ok; reflexivity.
  - destruct (truthy (w_img w)), ok; eexists; reflexivity.
Qed.

(** The three ways [cmd_catch] can go. *)
Lemma cmd_catch_cases (CD user_id now : Z) (rw rr : nat) (ok : bool) (db : DB) :
  fst (cmd_catch CD user_id now rw rr ok db) = db
  \/ exists w rarity,
       CD <= now - last_catch_of (find_one (user_is user_id) (db_users db))
       /\ choose_random_waifu_async rw db = Some w
       /\ pick_rarity rr = Some rarity.
Proof.
  destruct (Z.lt_ge_cases
              (now - last_catch_of (find_one (user_is user_id) (db_users db))) CD)
    as [Hlt|Hge].
  - left. now rewrite cmd_catch_on_cooldown.
  - destruct (choose_random_waifu_async rw db) as [w|] eqn:Hw.
    + right. destruct (pick_rarity_in_pool rr) as [t [Ht _]].
      exists w, t. auto.
    + left. now rewrite cmd_catch_no_waifus.
Qed.

(** The three texts of [cmd_catch] start with different bytes. *)
Lemma wait_text_not_no_waifus (remain : Z) :
inr (A := Exn) (Answer no_waifus_text) = inr (Answer (wait_text remain)) -> False.
Proof. intros E. vm_compute in E. discriminate E. Qed.

Lemma wait_text_not_caption (remain : Z) (name rarity : string) :
  inr (A := Exn) (Answer (caption_text name rarity)) = inr (Answer (wait_text remain))
  -> False.
Proof.
  intros E. unfold caption_text, wait_text in E.
  assert (Hf : forall s, (flower_cards ++ s)%string
                         = String "240" (String "159" (String "142" (String "180" s))))
    by reflexivity.
  assert (Hh : forall s, (hourglass ++ s)%string
                         = String "226" (String "143" (String "179" s)))
    by reflexivity.
  rewrite Hf, Hh in E. discriminate E.
Qed.

(* ================================================================== *)
(** ** Claims about [/catch] *)


(** C6. The outcome of a catch does not depend on [db.pending]: two stores
    with the same [db.users] and [db.waifus] and any two pending
    collections (a roll with another [ts], or none at all) give the same
    reply, the same cooldown decision and the same [db.users] afterwards. *)
Theorem catch_cooldown_ignores_pending
    (COOLDOWN_SECONDS user_id now : Z) (r_waifu r_rarity : nat) (photo_ok : bool)
    (ws : list Waifu) (us : list UserDoc) (pending1 pending2 : list Pending) :
  let out1 := cmd_catch COOLDOWN_SECONDS user_id now r_waifu r_rarity photo_ok
                (mkDB ws us pending1) in
  let out2 := cmd_catch COOLDOWN_SECONDS user_id now r_waifu r_rarity photo_ok
                (mkDB ws us pending2) in
  snd out1 = snd out2
  /\ db_users (fst out1) = db_users (fst out2)
  /\ (now - last_catch_of (find_one (user_is user_id) us) < COOLDOWN_SECONDS ->
      fst out1 = mkDB ws us pending1 /\ fst out2 = mkDB ws us pending2
      /\ snd out1 = inr (Answer (wait_text
           (COOLDOWN_SECONDS - (now - last_catch_of (find_one (user_is user_id) us))))))
  /\ (COOLDOWN_SECONDS <= now - last_catch_of (find_one (user_is user_id) us) ->
      forall remain, snd out1 <> inr (Answer (wait_text remain))
                     /\ snd out2 <> inr (Answer (wait_text remain))).
Proof.
  intros out1 out2. subst out1 out2.
  destruct (Z.lt_ge_cases (now - last_catch_of (find_one (user_is user_id) us))
              COOLDOWN_SECONDS) as [Hlt|Hge].
  - rewrite !cmd_catch_on_cooldown by exact Hlt. simpl.
    repeat split; try reflexivity; lia.
  - assert (Hb : (now - last_catch_of (find_one (user_is user_id) us)
                  <? COOLDOWN_SECONDS) = false) by now apply Z.ltb_ge.
    unfold cmd_catch, bind, pending_read, users_read, waifus_read. simpl.
    rewrite Hb.
    change (choose_random_waifu_async r_waifu (mkDB ws us pending2))
      with (choose_random_waifu_async r_waifu (mkDB ws us pending1)).
    destruct (choose_random_waifu_async r_waifu (mkDB ws us pending1)) as [w|]; simpl.
    + destruct (pick_rarity r_rarity) as [rarity|]; simpl.
      * destruct (truthy (w_img w)), photo_ok; simpl.
        all: repeat split; try reflexivity; try lia.
        all: intros E; try discriminate E;
          apply wait_text_not_caption in E; exact E.
      * repeat split; try reflexivity; try lia; discriminate.
    + repeat split; try reflexivity; try lia.
      all: intros E; apply wait_text_not_no_waifus in E; exact E.
Qed.

Lemma catch_cooldown_ignores_pending_witness :
  snd (cmd_catch 15 7 110 0 0 true
         (mkDB (db_waifus db_reroll) (db_users db_reroll) []))
  = inr (Answer (wait_text 5))
  /\ snd (cmd_catch 15 7 110 0 0 true
            (mkDB (db_waifus db_reroll) (db_users db_reroll) []))
     = snd (cmd_catch 15 7 110 0 0 true
              (mkDB (db_waifus db_reroll) (db_users db_reroll)
                 [mkPending 7 "w1" "Aria" None "Legendary" (Some 3)])).
Proof.
  destruct (catch_cooldown_ignores_pending 15 7 110 0 0 true
              (db_waifus db_reroll) (db_users db_reroll) []
              [mkPending 7 "w1" "Aria" None "Legendary" (Some 3)])
    as [Heq [_ [Hcd _]]].
  split; [|exact Heq].
  destruct Hcd as [_ [_ Hr]]; [vm_compute; reflexivity | exact Hr].
Defined.

(* ================================================================== *)
(** ** Running [cmd_claim] *)

Lemma cmd_claim_nothing (user_id now : Z) (db : DB) :
  find_one (pending_is user_id) (db_pending db) = None ->
  cmd_claim user_id now db = (db, inr (Answer nothing_to_claim_text)).
Proof.
  intros H. unfold cmd_claim, bind, pending_read. simpl. rewrite H. reflexivity.
Qed.

Lemma collection_after_upsert (user_id : Z) (us : list UserDoc) :
  waifus_map_of
    (find_one (user_is user_id)
       (update_one_upsert (user_is user_id) (fun d => d) (mkUser user_id None None) us))
  = waifus_map_of (find_one (user_is user_id) us).
Proof.
  rewrite find_one_upsert.
  - destruct (find_one (user_is user_id) us); reflexivity.
  - auto.
  - unfold user_is. simpl. apply Z.eqb_refl.
Qed.

Lemma cmd_claim_store (user_id now : Z) (db : DB) (pend : Pending) :
  find_one (pending_is user_id) (db_pending db) = Some pend ->
  fst (cmd_claim user_id now db)
  = mkDB (db_waifus db)
      (update_one (user_is user_id)
         (set_waifus_map
            (claim_update (waifu_entry_of pend now) (collection user_id db)))
         (update_one_upsert (user_is user_id) (fun d => d)
            (mkUser user_id None None) (db_users db)))
      (delete_one (pending_is user_id) (db_pending db)).
Proof.
  intros H. unfold cmd_claim, bind, pending_read, users_write, users_read,
    pending_write. simpl. rewrite H. simpl.
  rewrite collection_after_upsert. fold (collection user_id db).
  fold (waifu_entry_of pend now).
  set (m := claim_update (waifu_entry_of pend now) (collection user_id db)).
  unfold field.
  destruct (dict_get (p_waifu_id pend) m) as [info|]; simpl; [|reflexivity].
  destruct (e_name info); simpl; [|reflexivity].
  destruct (e_rarity info); simpl; [|reflexivity].
  destruct (e_count info); simpl; reflexivity.
Qed.

Lemma collection_after_claim (user_id now : Z) (db : DB) (pend : Pending) :
  find_one (pending_is user_id) (db_pending db) = Some pend ->
  collection user_id (fst (cmd_claim user_id now db))
  = claim_update (waifu_entry_of pend now) (collection user_id db).
Proof.
  intros H. rewrite (cmd_claim_store _ _ _ _ H). unfold collection at 1. simpl.
  rewrite find_one_update_one by (intros d Hd; exact Hd).
  rewrite find_one_upsert; [reflexivity | auto | ].
  unfold user_is. simpl. apply Z.eqb_refl.
Qed.

(** What [claim_update] does to the claimed key and to the others. *)
Lemma claim_update_owned (we : WaifuEntry) (m : dict Entry) (info : Entry) :
  dict_get (we_waifu_id we) m = Some info ->
  dict_get (we_waifu_id we) (claim_update we m)
  = Some (mkEntry (e_name info) (e_img info) (e_rarity info)
            (Some (get_default (e_count info) 1 + 1))).
Proof.
  intros H. unfold claim_update. rewrite H. apply dict_get_set_same.
Qed.

Lemma claim_update_new (we : WaifuEntry) (m : dict Entry) :
  dict_get (we_waifu_id we) m = None ->
  dict_get (we_waifu_id we) (claim_update we m)
  = Some (mkEntry (Some (we_name we)) (we_img we) (Some (we_rarity we)) (Some 1)).
Proof.
  intros H. unfold claim_update. rewrite H. apply dict_get_set_same.
Qed.

Lemma claim_update_other (we : WaifuEntry) (m : dict Entry) (k : string) :
  k <> we_waifu_id we ->
  dict_get k (claim_update we m) = dict_get k m.
Proof.
  intros H. unfold claim_update.
  destruct (dict_get (we_waifu_id we) m); now apply dict_get_set_other.
Qed.

(* ================================================================== *)
(** ** Claims about [/claim] *)

(** C5. A claim by a user with no pending roll answers "nothing to claim"
    and leaves the store, hence the user's collection and document, as it
    was. *)
Theorem claim_without_pending_mutates_nothing (user_id now : Z) (db : DB) :
  find_one (pending_is user_id) (db_pending db) = None ->
  snd (cmd_claim user_id now db) = inr (Answer nothing_to_claim_text)
  /\ fst (cmd_claim user_id now db) = db
  /\ collection user_id (fst (cmd_claim user_id now db)) = collection user_id db
  /\ find_one (user_is user_id) (db_users (fst (cmd_claim user_id now db)))
     = find_one (user_is user_id) (db_users db).
Proof.
  intros H. rewrite (cmd_claim_nothing _ _ _ H). simpl. repeat split; reflexivity.
Qed.

(** C4. A claim that finds a pending roll deletes it: afterwards the user
    has no pending document, and a second claim with no catch in between
    answers "nothing to claim" and changes nothing.  The store holds at
    most one pending roll for the user, as the data model has it. *)
Theorem claim_consumes_pending (user_id now now' : Z) (db : DB) (pend : Pending) :
  (List.length (pending_of user_id (db_pending db)) <= 1)%nat ->
  find_one (pending_is user_id) (db_pending db) = Some pend ->
  let db' := fst (cmd_claim user_id now db) in
  pending_of user_id (db_pending db') = []
  /\ find_one (pending_is user_id) (db_pending db') = None
  /\ cmd_claim user_id now' db' = (db', inr (Answer nothing_to_claim_text)).
Proof.
  intros Hone Hp db'.
  assert (Hnil : pending_of user_id (db_pending db') = []).
  { subst db'. rewrite (cmd_claim_store _ _ _ _ Hp). simpl.
    now apply filter_delete_one_self. }
  assert (Hnone : find_one (pending_is user_id) (db_pending db') = None).
  { rewrite find_one_filter. unfold pending_of in Hnil. now rewrite Hnil. }
  repeat split; try assumption.
  now apply cmd_claim_nothing.
Qed.

(** C10. When the user's collection has an entry for the claimed id and
    that entry has no [count] field, the claim stores count 2 there (the
    missing count reads as 1 before the increment), not 1. *)
Theorem claim_missing_count_becomes_two
    (user_id now : Z) (db : DB) (pend : Pending) (info : Entry) :
  find_one (pending_is user_id) (db_pending db) = Some pend ->
  dict_get (p_waifu_id pend) (collection user_id db) = Some info ->
  e_count info = None ->
  exists info',
    dict_get (p_waifu_id pend) (collection user_id (fst (cmd_claim user_id now db)))
    = Some info'
    /\ e_count info' = Some 2
    /\ e_count info' <> Some 1.
Proof.
  intros Hp Hget Hcount.
  rewrite (collection_after_claim _ _ _ _ Hp).
  change (p_waifu_id pend) with (we_waifu_id (waifu_entry_of pend now)).
  rewrite (claim_update_owned (waifu_entry_of pend now) _ info Hget).
  eexists. split; [reflexivity|]. simpl. rewrite Hcount. simpl.
  split; [reflexivity | discriminate].
Qed.

(** C1, as stated, fails: claiming the Legendary roll of an owned Common
    leaves the stored rarity Common. *)
Lemma claim_overwrites_entry_fails : ~ claim_overwrites_entry 7 200 db_reroll.
Proof.
  intros H.
  specialize (H (mkPending 7 "w1" "Aria" None "Legendary" (Some 100))
                (mkEntry (Some "Aria") None (Some "Common") (Some 1))
                eq_refl eq_refl).
  vm_compute in H. discriminate H.
Qed.

(** C1, amended. When the claimed id is already a key of the user's
    collection, the claim adds exactly 1 to that entry's count (an absent
    count reads as 1) and keeps the entry's stored name, image and rarity;
    the values of the pending roll are not written. *)
Theorem claim_increments_owned_entry
    (user_id now : Z) (db : DB) (pend : Pending) (info : Entry) :
  find_one (pending_is user_id) (db_pending db) = Some pend ->
  dict_get (p_waifu_id pend) (collection user_id db) = Some info ->
  exists info',
    dict_get (p_waifu_id pend) (collection user_id (fst (cmd_claim user_id now db)))
    = Some info'
    /\ e_count info' = Some (get_default (e_count info) 1 + 1)
    /\ (forall c, e_count info = Some c -> e_count info' = Some (c + 1))
    /\ e_name info' = e_name info
    /\ e_img info' = e_img info
    /\ e_rarity info' = e_rarity info.
Proof.
  intros Hp Hget.
  rewrite (collection_after_claim _ _ _ _ Hp).
  change (p_waifu_id pend) with (we_waifu_id (waifu_entry_of pend now)).
  rewrite (claim_update_owned (waifu_entry_of pend now) _ info Hget).
  eexists. split; [reflexivity|]. simpl.
  repeat split. intros c Hc. now rewrite Hc.
Qed.

Lemma claim_increments_owned_entry_witness :
  exists info',
    dict_get "w1" (collection 7 (fst (cmd_claim 7 200 db_reroll))) = Some info'
    /\ e_count info' = Some 2
    /\ e_rarity info' = Some "Common".
Proof.
  destruct (claim_increments_owned_entry 7 200 db_reroll
              (mkPending 7 "w1" "Aria" None "Legendary" (Some 100))
              (mkEntry (Some "Aria") None (Some "Common") (Some 1))
              eq_refl eq_refl)
    as [info' [H1 [H2 [_ [_ [_ H3]]]]]].
  exists info'. split; [exact H1|]. split; [exact H2 | exact H3].
Defined.

Lemma claim_consumes_pending_witness :
  cmd_claim 7 201 (fst (cmd_claim 7 200 db_reroll))
  = (fst (cmd_claim 7 200 db_reroll), inr (Answer nothing_to_claim_text)).
Proof.
  apply (claim_consumes_pending 7 200 201 db_reroll
           (mkPending 7 "w1" "Aria" None "Legendary" (Some 100))).
  - vm_compute. lia.
  - reflexivity.
Defined.

Lemma claim_without_pending_mutates_nothing_witness :
  fst (cmd_claim 8 200 db_reroll) = db_reroll.
Proof.
  apply (claim_without_pending_mutates_nothing 8 200 db_reroll). reflexivity.
Defined.

Lemma claim_missing_count_becomes_two_witness :
  exists info',
    dict_get "w1" (collection 7 (fst (cmd_claim 7 200 db_legacy))) = Some info'
    /\ e_count info' = Some 2
    /\ e_count info' <> Some 1.
Proof.
  apply (claim_missing_count_becomes_two 7 200 db_legacy
           (mkPending 7 "w1" "Aria" None "Rare" (Some 100))
           (mkEntry (Some "Aria") None (Some "Common") None));
    reflexivity.
Defined.


(* ================================================================== *)
(** ** The pending roll across [/catch] and [/claim] *)

Lemma pending_of_upsert_self (user_id : Z) (doc : Pending) (c : list Pending) :
  p_user_id doc = user_id ->
  (List.length (pending_of user_id c) <= 1)%nat ->
  pending_of user_id
    (update_one_upsert (pending_is user_id) (fun _ => doc) doc c) = [doc].
Proof.
  intros Hdoc Hone.
  assert (Hp : pending_is user_id doc = true)
    by (unfold pending_is; now apply Z.eqb_eq).
  unfold update_one_upsert, pending_of.
  destruct (existsb (pending_is user_id) c) eqn:Hex.
  - now apply filter_update_one_self.
  - rewrite filter_app, (filter_none _ _ Hex). simpl. now rewrite Hp.
Qed.

Lemma pending_of_upsert_other (user_id v : Z) (doc : Pending) (c : list Pending) :
  p_user_id doc = user_id -> v <> user_id ->
  pending_of v (update_one_upsert (pending_is user_id) (fun _ => doc) doc c)
  = pending_of v c.
Proof.
  intros Hdoc Hne.
  assert (Hq : pending_is v doc = false)
    by (unfold pending_is; apply Z.eqb_neq; congruence).
  unfold update_one_upsert, pending_of.
  destruct (existsb (pending_is user_id) c).
  - apply filter_update_one_other. intros d Hd. split; [|exact Hq].
    apply (pending_is_other user_id v d); [congruence | exact Hd].
  - rewrite filter_app. simpl. rewrite Hq. apply app_nil_r.
Qed.

Lemma pending_of_delete_other (user_id v : Z) (c : list Pending) :
  v <> user_id ->
  pending_of v (delete_one (pending_is user_id) c) = pending_of v c.
Proof.
  intros Hne. unfold pending_of. apply filter_delete_one_other.
  intros d Hd. apply (pending_is_other user_id v d); [congruence | exact Hd].
Qed.

Lemma cmd_catch_keeps_invariant
    (CD user_id now : Z) (rw rr : nat) (ok : bool) (db : DB) :
  at_most_one_pending db ->
  at_most_one_pending (fst (cmd_catch CD user_id now rw rr ok db)).
Proof.
  intros Hinv.
  destruct (cmd_catch_cases CD user_id now rw rr ok db)
    as [Hsame | [w [rarity [Hcd [Hw Hr]]]]].
  - now rewrite Hsame.
  - destruct (cmd_catch_rolls CD user_id now rw rr ok db w rarity Hcd Hw Hr)
      as [Hfst _].
    rewrite Hfst. intros v. simpl.
    destruct (Z.eq_dec v user_id) as [->|Hne].
    + rewrite pending_of_upsert_self; [simpl; lia | reflexivity | apply Hinv].
    + rewrite pending_of_upsert_other by (auto || reflexivity). apply Hinv.
Qed.

Lemma cmd_claim_keeps_invariant (user_id now : Z) (db : DB) :
  at_most_one_pending db ->
  at_most_one_pending (fst (cmd_claim user_id now db)).
Proof.
  intros Hinv.
  destruct (find_one (pending_is user_id) (db_pending db)) as [pend|] eqn:Hp.
  - rewrite (cmd_claim_store _ _ _ _ Hp). intros v. simpl.
    destruct (Z.eq_dec v user_id) as [->|Hne].
    + unfold pending_of. rewrite filter_delete_one_self; [simpl; lia | apply Hinv].
    + rewrite pending_of_delete_other by exact Hne. apply Hinv.
  - now rewrite cmd_claim_nothing.
Qed.

Lemma collection_after_catch
    (CD user_id now : Z) (rw rr : nat) (ok : bool) (db : DB) :
  collection user_id (fst (cmd_catch CD user_id now rw rr ok db))
  = collection user_id db.
Proof.
  destruct (cmd_catch_cases CD user_id now rw rr ok db)
    as [Hsame | [w [rarity [Hcd [Hw Hr]]]]].
  - now rewrite Hsame.
  - destruct (cmd_catch_rolls CD user_id now rw rr ok db w rarity Hcd Hw Hr)
      as [Hfst _].
    rewrite Hfst. unfold collection. simpl.
    rewrite find_one_upsert.
    + destruct (find_one (user_is user_id) (db_users db)); reflexivity.
    + intros d Hd. exact Hd.
    + unfold user_is. simpl. apply Z.eqb_refl.
Qed.

Lemma dict_set_length {V : Type} (k : string) (v : V) (d : dict V) :
  List.length (dict_set k v d)
  = if dict_mem k d then List.length d else S (List.length d).
Proof.
  unfold dict_mem. induction d as [|[k' v'] d IH]; simpl; [reflexivity|].
  destruct (String.eqb k k'); simpl; [reflexivity|].
  rewrite IH. destruct (dict_get k d); reflexivity.
Qed.

Lemma claim_update_length (we : WaifuEntry) (m : dict Entry) :
  List.length (claim_update we m)
  = if dict_mem (we_waifu_id we) m then List.length m else S (List.length m).
Proof.
  unfold claim_update.
  destruct (dict_get (we_waifu_id we) m) eqn:E; apply dict_set_length.
Qed.

(** C3. At most one pending roll per user is kept by every catch.  A catch
    that rolls leaves the user exactly one pending document, the new roll,
    whatever was pending before.  So after catch, catch, claim (the second
    catch rolling waifu [w2] with rarity [rarity2]) the user's collection
    differs from the one before in the entry of [w2] alone: incremented if
    it was owned, inserted with count 1 otherwise; the first roll leaves no
    trace, and no pending roll remains. *)
Theorem catch_overwrites_pending (COOLDOWN_SECONDS user_id : Z) (db : DB) :
  at_most_one_pending db ->
  (forall now rw rr ok,
     at_most_one_pending (fst (cmd_catch COOLDOWN_SECONDS user_id now rw rr ok db)))
  /\ (forall now rw rr ok w rarity,
        COOLDOWN_SECONDS
          <= now - last_catch_of (find_one (user_is user_id) (db_users db)) ->
        choose_random_waifu_async rw db = Some w ->
        pick_rarity rr = Some rarity ->
        pending_of user_id
          (db_pending (fst (cmd_catch COOLDOWN_SECONDS user_id now rw rr ok db)))
        = [rolled user_id w rarity now])
  /\ (forall now1 rw1 rr1 ok1 now2 rw2 rr2 ok2 now3 w2 rarity2,
        let db1 := fst (cmd_catch COOLDOWN_SECONDS user_id now1 rw1 rr1 ok1 db) in
        let db2 := fst (cmd_catch COOLDOWN_SECONDS user_id now2 rw2 rr2 ok2 db1) in
        let db3 := fst (cmd_claim user_id now3 db2) in
        COOLDOWN_SECONDS
          <= now2 - last_catch_of (find_one (user_is user_id) (db_users db1)) ->
        choose_random_waifu_async rw2 db1 = Some w2 ->
        pick_rarity rr2 = Some rarity2 ->
        (forall k, k <> w_waifu_id w2 ->
           dict_get k (collection user_id db3) = dict_get k (collection user_id db))
        /\ dict_get (w_waifu_id w2) (collection user_id db3)
           = Some match dict_get (w_waifu_id w2) (collection user_id db) with
                  | Some info =>
                      mkEntry (e_name info) (e_img info) (e_rarity info)
                        (Some (get_default (e_count info) 1 + 1))
                  | None =>
                      mkEntry (Some (w_name w2)) (w_img w2) (Some rarity2) (Some 1)
                  end
        /\ List.length (collection user_id db3)
           = (if dict_mem (w_waifu_id w2) (collection user_id db)
              then List.length (collection user_id db)
              else S (List.length (collection user_id db)))
        /\ pending_of user_id (db_pending db3) = []).
Proof.
  intros Hinv. split; [|split].
  - intros. now apply cmd_catch_keeps_invariant.
  - intros now rw rr ok w rarity Hcd Hw Hr.
    destruct (cmd_catch_rolls COOLDOWN_SECONDS user_id now rw rr ok db w rarity
                Hcd Hw Hr) as [Hfst _].
    rewrite Hfst. simpl.
    apply pending_of_upsert_self; [reflexivity | apply Hinv].
  - intros now1 rw1 rr1 ok1 now2 rw2 rr2 ok2 now3 w2 rarity2 db1 db2 db3 Hcd Hw Hr.
    assert (Hinv1 : at_most_one_pending db1)
      by (subst db1; now apply cmd_catch_keeps_invariant).
    assert (Hpend2 : pending_of user_id (db_pending db2)
                     = [rolled user_id w2 rarity2 now2]).
    { subst db2.
      destruct (cmd_catch_rolls COOLDOWN_SECONDS user_id now2 rw2 rr2 ok2 db1 w2
                  rarity2 Hcd Hw Hr) as [Hfst _].
      rewrite Hfst. simpl.
      apply pending_of_upsert_self; [reflexivity | apply Hinv1]. }
    assert (Hfind : find_one (pending_is user_id) (db_pending db2)
                    = Some (rolled user_id w2 rarity2 now2)).
    { rewrite find_one_filter. unfold pending_of in Hpend2. now rewrite Hpend2. }
    assert (Hcol : collection user_id db3
                   = claim_update (waifu_entry_of (rolled user_id w2 rarity2 now2) now3)
                       (collection user_id db)).
    { subst db3. rewrite (collection_after_claim _ _ _ _ Hfind).
      subst db2 db1. now rewrite !collection_after_catch. }
    rewrite Hcol.
    set (we := waifu_entry_of (rolled user_id w2 rarity2 now2) now3).
    change (w_waifu_id w2) with (we_waifu_id we).
    split; [|split; [|split]].
    + intros k Hk. now apply claim_update_other.
    + destruct (dict_get (we_waifu_id we) (collection user_id db)) as [info|] eqn:E.
      * now apply claim_update_owned.
      * now apply claim_update_new.
    + apply claim_update_length.
    + subst db3. rewrite (cmd_claim_store _ _ _ _ Hfind). simpl.
      apply filter_delete_one_self. unfold pending_of in Hpend2.
      rewrite Hpend2. simpl. lia.
Qed.

Lemma catch_overwrites_pending_witness :
  at_most_one_pending db_two
  /\ let db1 := fst (cmd_catch 15 7 100 0 0 true db_two) in
     let db2 := fst (cmd_catch 15 7 120 1 99 true db1) in
     let db3 := fst (cmd_claim 7 121 db2) in
     dict_get "w2" (collection 7 db3)
     = Some (mkEntry (Some "Bea") (Some "http://img/bea") (Some "Common") (Some 1))
     /\ dict_get "w1" (collection 7 db3) = None
     /\ List.length (collection 7 db3) = 1%nat.
Proof.
  assert (Hinv : at_most_one_pending db_two) by (intros v; simpl; lia).
  split; [exact Hinv|].
  destruct (catch_overwrites_pending 15 7 db_two Hinv) as [_ [_ H]].
  destruct (H 100 0%nat 0%nat true 120 1%nat 99%nat true 121
              (mkWaifu "w2" "Bea" (Some "http://img/bea") []) "Common"
              ltac:(vm_compute; discriminate) eq_refl eq_refl)
    as [H1 [H2 [H3 _]]].
  split; [exact H2|]. split; [|exact H3].
  rewrite (H1 "w1"); [reflexivity | discriminate].
Defined.

(* ================================================================== *)
(** ** Facts about [sorted] *)

Lemma string_compare_lexical (a b : string) :
  String.compare a b = String_as_OT.compare a b.
Proof.
  reflexivity.
Qed.

Lemma string_leb_iff (a b : string) :
  String.leb a b = true <-> a = b \/ String_as_OT.lt a b.
Proof.
  unfold String.leb. rewrite string_compare_lexical.
  destruct (String_as_OT.compare_spec a b) as [E|L|G].
  - split; auto.
  - split; auto.
  - split; [discriminate|]. intros [E|L].
    + subst. exfalso. eapply (StrictOrder_Irreflexive (R := String_as_OT.lt)). exact G.
    + exfalso. eapply (StrictOrder_Irreflexive (R := String_as_OT.lt)).
      eapply (StrictOrder_Transitive (R := String_as_OT.lt)); eassumption.
Qed.

Lemma string_leb_trans (a b c : string) :
  String.leb a b = true -> String.leb b c = true -> String.leb a c = true.
Proof.
  rewrite !string_leb_iff. intros [E1|L1] [E2|L2]; subst; auto.
  right. eapply (StrictOrder_Transitive (R := String_as_OT.lt)); eassumption.
Qed.

Lemma tuple_leb_total (a b : Z * string) :
  tuple_leb a b = true \/ tuple_leb b a = true.
Proof.
  unfold tuple_leb. destruct a as [x s], b as [y t]. simpl.
  destruct (Z.lt_trichotomy x y) as [H|[H|H]].
  - left. apply Z.ltb_lt in H. now rewrite H.
  - subst y. rewrite Z.ltb_irrefl, Z.eqb_refl. simpl. apply String.leb_total.
  - right. apply Z.ltb_lt in H. now rewrite H.
Qed.

Lemma tuple_leb_iff (a b : Z * string) :
  tuple_leb a b = true
  <-> fst a < fst b \/ (fst a = fst b /\ String.leb (snd a) (snd b) = true).
Proof.
  unfold tuple_leb.
  rewrite orb_true_iff, andb_true_iff, Z.ltb_lt, Z.eqb_eq. tauto.
Qed.

Lemma tuple_leb_trans (a b c : Z * string) :
  tuple_leb a b = true -> tuple_leb b c = true -> tuple_leb a c = true.
Proof.
  rewrite !tuple_leb_iff. intros [H1|[H1 L1]] [H2|[H2 L2]].
  - left; lia.
  - left; lia.
  - left; lia.
  - right. split; [lia|]. eapply string_leb_trans; eassumption.
Qed.

Lemma StronglySorted_impl {A : Type} (R S : A -> A -> Prop) (l : list A) :
  (forall x y, R x y -> S x y) -> StronglySorted R l -> StronglySorted S l.
Proof.
  intros HRS H. induction H as [|x l Hl IH Hx]; constructor; auto.
  eapply Forall_impl; [|exact Hx]. auto.
Qed.

Lemma StronglySorted_firstn {A : Type} (R : A -> A -> Prop) (n : nat) (l : list A) :
  StronglySorted R l -> StronglySorted R (firstn n l).
Proof.
  intros H. revert n. induction H as [|x l Hl IH Hx]; intros [|n]; simpl;
    try constructor; auto.
  rewrite Forall_forall in *. intros y Hy. apply Hx.
  rewrite <- (firstn_skipn n l). apply in_or_app. now left.
Qed.

Section SortedFacts.
Context {A K : Type}.
Variable leb : K -> K -> bool.
Variable key : A -> K.
Hypothesis leb_total : forall a b, leb a b = true \/ leb b a = true.
Hypothesis leb_trans : forall a b c, leb a b = true -> leb b c = true -> leb a c = true.

Lemma insert_by_perm (x : A) (l : list A) :
  Permutation (x :: l) (insert_by leb key x l).
Proof.
  induction l as [|y l IH]; simpl; [reflexivity|].
  destruct (leb (key x) (key y)); [reflexivity|].
  rewrite perm_swap. now apply perm_skip.
Qed.

Lemma sorted_perm (l : list A) : Permutation l (sorted leb key l).
Proof.
  induction l as [|x l IH]; simpl; [constructor|].
  rewrite <- insert_by_perm. now apply perm_skip.
Qed.

Lemma insert_by_sorted (x : A) (l : list A) :
  StronglySorted (key_le leb key) l -> StronglySorted (key_le leb key) (insert_by leb key x l).
Proof.
  intros H. induction H as [|y l Hl IH Hy]; simpl.
  - constructor; constructor.
  - destruct (leb (key x) (key y)) eqn:E.
    + constructor; [constructor; assumption|].
      constructor; [exact E|].
      eapply Forall_impl; [|exact Hy]. intros z Hz. unfold key_le in *.
      eapply leb_trans; eassumption.
    + constructor; [exact IH|].
      eapply Permutation_Forall; [apply insert_by_perm|].
      constructor; [|exact Hy].
      unfold key_le. destruct (leb_total (key x) (key y)); congruence.
Qed.

Lemma sorted_is_sorted (l : list A) : StronglySorted (key_le leb key) (sorted leb key l).
Proof.
  induction l as [|x l IH]; simpl; [constructor|]. now apply insert_by_sorted.
Qed.

Lemma sorted_length (l : list A) : List.length (sorted leb key l) = List.length l.
Proof. symmetry. apply Permutation_length, sorted_perm. Qed.

(** The sort is stable: the elements whose keys compare equal to [k] keep
    their order, which fixes the result among the sorted permutations. *)
Lemma insert_by_stable (k : K) (x : A) (l : list A) :
  filter (key_eqv leb key k) (insert_by leb key x l) = filter (key_eqv leb key k) (x :: l).
Proof.
  induction l as [|y l IH]; [reflexivity|].
  cbn [insert_by]. destruct (leb (key x) (key y)) eqn:E; [reflexivity|].
  cbn [filter] in *. rewrite IH.
  destruct (key_eqv leb key k x) eqn:Ex, (key_eqv leb key k y) eqn:Ey; try reflexivity.
  unfold key_eqv in Ex, Ey.
  apply andb_true_iff in Ex. apply andb_true_iff in Ey.
  destruct Ex as [_ Hxk]. destruct Ey as [Hky _].
  rewrite (leb_trans _ _ _ Hxk Hky) in E. discriminate E.
Qed.

Lemma sorted_stable (k : K) (l : list A) :
  filter (key_eqv leb key k) (sorted leb key l) = filter (key_eqv leb key k) l.
Proof.
  induction l as [|x l IH]; [reflexivity|].
  cbn [sorted fold_right]. fold (sorted leb key l).
  rewrite insert_by_stable. cbn [filter]. now rewrite IH.
Qed.
End SortedFacts.

(* ================================================================== *)
(** ** [/inventory] *)

Lemma numbered_lines_length (i : Z) (items : list (string * Entry)) :
  List.length (numbered_lines i items) = List.length items.
Proof.
  revert i. induction items as [|x items IH]; intros i; simpl; [reflexivity|].
  now rewrite IH.
Qed.

Lemma inventory_loop_store (items : list (string * Entry)) :
  forall i lines db, fst (inventory_loop i items lines db) = db.
Proof.
  induction items as [|[wid info] items IH]; intros i lines db; simpl; [reflexivity|].
  unfold bind, field.
  destruct (e_name info); simpl; [|reflexivity].
  destruct (e_rarity info); simpl; [|reflexivity].
  destruct (e_count info); simpl; [|reflexivity].
  destruct (20 <=? i); [reflexivity | apply IH].
Qed.

Lemma inventory_loop_upto (db : DB) (items : list (string * Entry)) :
  forall i lines n,
    Z.of_nat n = 20 - i ->
    Forall complete_entry (dict_values items) ->
    inventory_loop i items lines db
    = (db, inr (lines ++ numbered_lines i (firstn (S n) items))).
Proof.
  induction items as [|[wid info] items IH]; intros i lines n Hi Hall.
  - simpl. now rewrite app_nil_r.
  - inversion Hall as [|? ? [Hn [Hr Hc]] Hrest]; subst.
    cbn [inventory_loop firstn numbered_lines]. unfold bind, field.
    unfold entry_name, entry_rarity, entry_count. cbn [snd].
    destruct (e_name info) as [name|]; [|congruence].
    destruct (e_rarity info) as [rarity|]; [|congruence].
    destruct (e_count info) as [count|]; [|congruence].
    cbn [ret get_default].
    destruct (20 <=? i) eqn:E.
    + apply Z.leb_le in E. assert (n = 0%nat) by lia. subst n.
      reflexivity.
    + apply Z.leb_gt in E. destruct n as [|n]; [lia|].
      rewrite (IH (i + 1) _ n) by (auto; lia).
      now rewrite <- app_assoc.
Qed.

Lemma inventory_loop_first (db : DB) (items : list (string * Entry)) :
  forall i lines n,
    Z.of_nat n = 20 - i ->
    Forall complete_entry (dict_values (firstn (S n) items)) ->
    inventory_loop i items lines db
    = (db, inr (lines ++ numbered_lines i (firstn (S n) items))).
Proof.
  induction items as [|[wid info] items IH]; intros i lines n Hi Hall.
  - simpl. now rewrite app_nil_r.
  - cbn [firstn dict_values map] in Hall.
    inversion Hall as [|? ? [Hn [Hr Hc]] Hrest]; subst.
    cbn [inventory_loop firstn numbered_lines]. unfold bind, field.
    unfold entry_name, entry_rarity, entry_count. cbn [snd] in *.
    destruct (e_name info) as [name|]; [|congruence].
    destruct (e_rarity info) as [rarity|]; [|congruence].
    destruct (e_count info) as [count|]; [|congruence].
    cbn [ret get_default].
    destruct (20 <=? i) eqn:E.
    + apply Z.leb_le in E. assert (n = 0%nat) by lia. subst n.
      reflexivity.
    + apply Z.leb_gt in E. destruct n as [|n]; [lia|].
      rewrite (IH (i + 1) _ n) by (auto; lia).
      now rewrite <- app_assoc.
Qed.

Lemma inventory_loop_complete (db : DB) (items : list (string * Entry)) :
  Forall complete_entry (dict_values items) ->
  inventory_loop 1 items [] db
  = (db, inr (numbered_lines 1 (firstn 20 items))).
Proof.
  intros Hall. now rewrite (inventory_loop_upto db items 1 [] 19).
Qed.

Lemma answer_inj (a b : string) :
inr (A := Exn) (Answer a) = inr (Answer b) -> a = b.
Proof. intros H. now injection H. Qed.

Lemma collection_header_not_empty_text (s : string) :
  (collection_header ++ s)%string <> empty_collection_text.
Proof.
  intros E. apply (f_equal (String.get 20)) in E. vm_compute in E. discriminate E.
Qed.

Lemma inventory_key_before (x y : string * Entry) :
  key_le tuple_leb inventory_key x y -> inventory_before x y.
Proof.
  unfold key_le, inventory_before. rewrite tuple_leb_iff. unfold inventory_key.
  simpl. fold (entry_count x) (entry_count y) (entry_rarity x) (entry_rarity y).
  intros [H|[H L]]; [left; lia | right; split; [lia | exact L]].
Qed.

(** The texts of the handlers, letter for letter as [main.py] has them. *)
Lemma str_int_decimal (n : Z) : str_int n = decimal n.
Proof. reflexivity. Qed.

Example decimal_of_small_numbers :
  decimal 0 = "0" /\ decimal 7 = "7" /\ decimal 20 = "20" /\ decimal 105 = "105"
  /\ decimal (-3) = "-3".
Proof. repeat split; reflexivity. Qed.

Lemma join_lines_text (lines : list string) :
  join_lines lines = String.concat line_feed lines.
Proof. reflexivity. Qed.

Lemma wait_text_letters (remain : Z) :
  wait_text remain
  = ("⏳ Wait " ++ decimal remain ++ "s before catching again.")%string.
Proof. reflexivity. Qed.

Lemma caption_text_letters (name rarity : string) :
  caption_text name rarity
  = ("🎴 A Waifu appeared!" ++ line_feed ++ line_feed
     ++ "❤️ Name: " ++ name ++ line_feed
     ++ "⭐ Rarity: " ++ rarity ++ line_feed ++ line_feed
     ++ "Use /claim to add her to your collection.")%string.
Proof. reflexivity. Qed.

Lemma nothing_to_claim_text_letters :
  nothing_to_claim_text = "❌ You have no waifu to claim. Use /catch first.".
Proof. reflexivity. Qed.

Lemma claimed_text_letters (name rarity : string) (count : Z) :
  claimed_text name rarity count
  = ("✅ You claimed " ++ name ++ " (" ++ rarity ++ "). You now have "
     ++ decimal count ++ " of them.")%string.
Proof. reflexivity. Qed.

Lemma empty_collection_text_letters :
  empty_collection_text = "📦 Your collection is empty.".
Proof. reflexivity. Qed.

Lemma collection_header_letters :
  collection_header = ("📦 Your collection:" ++ line_feed ++ line_feed)%string.
Proof. reflexivity. Qed.

Lemma inventory_line_letters (i : Z) (name rarity : string) (count : Z) :
  inventory_line i name rarity count
  = (decimal i ++ ". " ++ name ++ " — " ++ rarity ++ " x" ++ decimal count)%string.
Proof. reflexivity. Qed.

Lemma leaderboard_header_letters :
  leaderboard_header = ("🏆 Leaderboard" ++ line_feed ++ line_feed)%string.
Proof. reflexivity. Qed.

Lemma leaderboard_line_letters (rank : Z) (name : string) (score : Z) :
  leaderboard_line rank name score
  = (decimal rank ++ ". " ++ name ++ " — " ++ decimal score)%string.
Proof. reflexivity. Qed.

Lemma rarity_line_letters (k : string) (v : Z) :
  rarity_line (k, v) = (k ++ ": " ++ decimal v)%string.
Proof. reflexivity. Qed.

Lemma profile_text_letters (total : Z) (rtext : string) :
  profile_text total rtext
  = ("👤 Profile" ++ line_feed ++ "Total waifus: " ++ decimal total
     ++ line_feed ++ line_feed ++ "Rarity counts:" ++ line_feed ++ rtext)%string.
Proof. reflexivity. Qed.

Lemma start_text_letters :
  start_text
  = ("🔥 Welcome to Waifu Catcher!" ++ line_feed ++ line_feed
     ++ "Commands:" ++ line_feed
     ++ "/catch - roll for a waifu (then /claim)" ++ line_feed
     ++ "/claim - claim your last rolled waifu" ++ line_feed
     ++ "/inventory - see your collection" ++ line_feed
     ++ "/profile - your stats" ++ line_feed
     ++ "/leaderboard - top collectors" ++ line_feed)%string.
Proof. reflexivity. Qed.

(** What [cmd_catch] takes as the time of the last roll. *)
Lemma last_catch_of_reads (d : UserDoc) :
  last_catch_of None = 0
  /\ (u_last_catch d = None -> last_catch_of (Some d) = 0)
  /\ (forall t, u_last_catch d = Some t -> last_catch_of (Some d) = t).
Proof.
  unfold last_catch_of. split; [reflexivity|].
  split; [intros -> | intros t ->]; reflexivity.
Qed.

(** A user the bot has never seen waits out the cooldown counted from
    time 0. *)
Example first_catch_counts_from_zero :
  cmd_catch 15 7 10 0 0 true db_two
  = (db_two, inr (Answer "⏳ Wait 5s before catching again."))
  /\ snd (cmd_catch 15 7 15 0 0 true db_two)
     = inr (Answer (caption_text "Aria" "Legendary")).
Proof. split; vm_compute; reflexivity. Qed.

Lemma numbered_lines_nth (items : list (string * Entry)) :
  forall i n x,
    nth_error items n = Some x ->
    nth_error (numbered_lines i items) n
    = Some (inventory_line (i + Z.of_nat n) (entry_name x) (entry_rarity x)
              (entry_count x)).
Proof.
  induction items as [|y items IH]; intros i n x Hn.
  - destruct n; discriminate Hn.
  - destruct n as [|n]; cbn [nth_error numbered_lines] in *.
    + injection Hn as ->. now rewrite Z.add_0_r.
    + rewrite (IH (i + 1) n x Hn). do 2 f_equal. lia.
Qed.

(** C7. [/inventory] answers "📦 Your collection is empty." exactly when
    the user's collection mapping is empty.  The sorted collection is a
    permutation of the collection in the order count descending, then
    rarity label ascending in string order.  When the collection is not
    empty and the first 20 sorted entries carry name, rarity and count, the
    reply is the header "📦 Your collection:", an empty line and at most 20
    lines, one per entry among the first 20 in sorted order: line [n + 1]
    (numbered from 1) is
    ["{n+1}. {name} — {rarity} x{count}"] with the name, rarity and count
    of the entry, the numbers in decimal.  The store is only read. *)
Theorem inventory_renders_sorted_collection (user_id : Z) (db : DB) :
  let items := sorted tuple_leb inventory_key (collection user_id db) in
  fst (cmd_inventory user_id db) = db
  /\ (snd (cmd_inventory user_id db) = inr (Answer "📦 Your collection is empty.")
      <-> collection user_id db = [])
  /\ Permutation (collection user_id db) items
  /\ StronglySorted inventory_before items
  /\ (collection user_id db <> [] ->
      Forall complete_entry (dict_values (firstn 20 items)) ->
      exists lines,
        snd (cmd_inventory user_id db)
        = inr (Answer ("📦 Your collection:" ++ line_feed ++ line_feed
                       ++ String.concat line_feed lines)%string)
        /\ List.length lines = Nat.min 20 (List.length (collection user_id db))
        /\ (List.length lines <= 20)%nat
        /\ forall n x,
             nth_error (firstn 20 items) n = Some x ->
             exists name rarity count,
               e_name (snd x) = Some name
               /\ e_rarity (snd x) = Some rarity
               /\ e_count (snd x) = Some count
               /\ nth_error lines n
                  = Some (decimal (Z.of_nat n + 1) ++ ". " ++ name ++ " — "
                          ++ rarity ++ " x" ++ decimal count)%string).
Proof.
  intros items.
  assert (Hperm : Permutation (collection user_id db) items)
    by apply sorted_perm.
  assert (Hsorted : StronglySorted inventory_before items).
  { eapply StronglySorted_impl; [apply inventory_key_before|].
    apply sorted_is_sorted; [apply tuple_leb_total | apply tuple_leb_trans]. }
  unfold cmd_inventory, bind, users_read. cbv beta iota.
  fold (collection user_id db).
  destruct (collection user_id db) as [|x wm] eqn:Ecol.
  - split; [reflexivity|]. split; [split; reflexivity|].
    split; [exact Hperm|]. split; [exact Hsorted|]. intros H. now elim H.
  - fold items.
    split; [|split; [|split; [exact Hperm | split; [exact Hsorted|]]]].
    + pose proof (inventory_loop_store items 1 [] db) as Hst.
      destruct (inventory_loop 1 items [] db) as [db' [e|lines]]; simpl in *;
        congruence.
    + split; [|discriminate].
      destruct (inventory_loop 1 items [] db) as [db' [e|lines]]; simpl;
        [discriminate|].
      intros E. exfalso. apply answer_inj in E.
      rewrite <- empty_collection_text_letters in E.
      exact (collection_header_not_empty_text _ E).
    + intros _ Hall. exists (numbered_lines 1 (firstn 20 items)).
      assert (Hlen : List.length (numbered_lines 1 (firstn 20 items))
                     = Nat.min 20 (List.length (x :: wm))).
      { rewrite numbered_lines_length, length_firstn. unfold items.
        now rewrite sorted_length. }
      split; [|split; [exact Hlen | split; [rewrite Hlen; apply Nat.le_min_l|]]].
      * rewrite (inventory_loop_first db items 1 [] 19 eq_refl Hall).
        reflexivity.
      * intros n y Hn.
        assert (Hc : complete_entry (snd y)).
        { rewrite Forall_forall in Hall. apply Hall. unfold dict_values.
          apply in_map. eapply nth_error_In. exact Hn. }
        destruct Hc as [Hname [Hrar Hcnt]].
        destruct (e_name (snd y)) as [name|] eqn:En; [|congruence].
        destruct (e_rarity (snd y)) as [rarity|] eqn:Er; [|congruence].
        destruct (e_count (snd y)) as [count|] eqn:Ec; [|congruence].
        exists name, rarity, count. repeat split.
        rewrite (numbered_lines_nth _ 1 n y Hn), inventory_line_letters.
        unfold entry_name, entry_rarity, entry_count. rewrite En, Er, Ec.
        cbn [get_default]. do 3 f_equal. lia.
Qed.

(** With equal counts the labels come in string order (Common, Legendary,
    Rare), which is not the order of the tiers. *)
Example inventory_orders_labels_as_strings :
  snd (cmd_inventory 1 db_shelf)
  = inr (Answer ("📦 Your collection:" ++ line_feed ++ line_feed
                 ++ "1. Cia — Common x3" ++ line_feed
                 ++ "2. Dee — Common x1" ++ line_feed
                 ++ "3. Bea — Legendary x1" ++ line_feed
                 ++ "4. Ayu — Rare x1")%string).
Proof. vm_compute. reflexivity. Qed.

Lemma inventory_renders_sorted_collection_witness :
  collection 1 db_shelf <> []
  /\ exists lines,
       snd (cmd_inventory 1 db_shelf)
       = inr (Answer ("📦 Your collection:" ++ line_feed ++ line_feed
                      ++ String.concat line_feed lines)%string)
       /\ List.length lines = 4%nat
       /\ nth_error lines 0 = Some "1. Cia — Common x3"
       /\ nth_error lines 3 = Some "4. Ayu — Rare x1".
Proof.
  assert (Hne : collection 1 db_shelf <> []) by (vm_compute; discriminate).
  split; [exact Hne|].
  destruct (inventory_renders_sorted_collection 1 db_shelf) as [_ [_ [_ [_ H]]]].
  destruct (H Hne) as [lines [Hr [Hlen [_ Hnth]]]].
  - vm_compute. repeat constructor; discriminate.
  - exists lines. split; [exact Hr|]. split; [exact Hlen|]. split.
    + destruct (Hnth 0%nat ("c", mkEntry (Some "Cia") None (Some "Common") (Some 3))
                  eq_refl) as [name [rarity [count [Hn [Hra [Hc Hl]]]]]].
      simpl in Hn, Hra, Hc. injection Hn as <-. injection Hra as <-.
      injection Hc as <-. exact Hl.
    + destruct (Hnth 3%nat ("a", mkEntry (Some "Ayu") None (Some "Rare") (Some 1))
                  eq_refl) as [name [rarity [count [Hn [Hra [Hc Hl]]]]]].
      simpl in Hn, Hra, Hc. injection Hn as <-. injection Hra as <-.
      injection Hc as <-. exact Hl.
Defined.

(* ================================================================== *)
(** ** [/leaderboard] *)

Lemma leaderboard_scores_filter (docs : list UserDoc) :
  forall scores,
    leaderboard_scores docs scores
    = scores ++ map (fun d => (u_user_id d, user_total d))
                  (filter (fun d => 0 <? user_total d) docs).
Proof.
  induction docs as [|d docs IH]; intros scores; simpl.
  - now rewrite app_nil_r.
  - fold (user_total d). destruct (0 <? user_total d); simpl.
    + rewrite IH, <- app_assoc. reflexivity.
    + apply IH.
Qed.

Lemma leaderboard_lines_length (get_chat : Z -> option string) (top : list (Z * Z)) :
  forall rank lines,
    List.length (leaderboard_lines get_chat rank top lines)
    = (List.length lines + List.length top)%nat.
Proof.
  induction top as [|[uid score] top IH]; intros rank lines; simpl.
  - lia.
  - rewrite IH, length_app. simpl. lia.
Qed.

Lemma leaderboard_header_not_no_data (s : string) :
  (leaderboard_header ++ s)%string <> no_data_text.
Proof.
  intros E. apply (f_equal (String.get 0)) in E. vm_compute in E. discriminate E.
Qed.

Lemma Z_leb_total (a b : Z) : (a <=? b) = true \/ (b <=? a) = true.
Proof. rewrite !Z.leb_le. lia. Qed.

Lemma Z_leb_trans (a b c : Z) :
(a <=? b) = true -> (b <=? c) = true -> (a <=? c) = true.
Proof. rewrite !Z.leb_le. lia. Qed.

(** C8. [/leaderboard] reads only the first 100 user documents; every
    entry it ranks comes from one of them and has a positive total, so
    users with total 0 are left out; it ranks at most 10 entries, in
    non-increasing order of total; and it answers "No data yet." exactly
    when none of the scanned documents has a positive total.  The store is
    only read. *)
Theorem leaderboard_top_ten_of_first_hundred
    (get_chat : Z -> option string) (db : DB) :
  let scanned := firstn 100 (db_users db) in
  let top := leaderboard_top (db_users db) in
  fst (cmd_leaderboard get_chat db) = db
  /\ leaderboard_top (db_users db) = leaderboard_top scanned
  /\ (forall users', firstn 100 users' = scanned -> leaderboard_top users' = top)
  /\ (forall uid total, In (uid, total) top ->
        0 < total
        /\ exists d, In d scanned /\ u_user_id d = uid /\ user_total d = total)
  /\ (List.length top <= 10)%nat
  /\ StronglySorted (fun x y : Z * Z => snd x >= snd y) top
  /\ (snd (cmd_leaderboard get_chat db) = inr (Answer no_data_text)
      <-> forall d, In d scanned -> user_total d <= 0)
  /\ (top <> [] ->
      snd (cmd_leaderboard get_chat db)
      = inr (Answer (leaderboard_header
                     ++ join_lines (leaderboard_lines get_chat 1 top [])))
      /\ List.length (leaderboard_lines get_chat 1 top []) = List.length top).
Proof.
  intros scanned top.
  set (scores := map (fun d => (u_user_id d, user_total d))
                   (filter (fun d => 0 <? user_total d) scanned)).
  set (ranked := sorted Z.leb (fun x : Z * Z => - snd x) scores).
  assert (Htop : top = firstn 10 ranked).
  { subst top ranked scores scanned. unfold leaderboard_top, to_list.
    now rewrite leaderboard_scores_filter. }
  assert (Hperm : Permutation scores ranked) by apply sorted_perm.
  assert (Hnil : top = [] <-> forall d, In d scanned -> user_total d <= 0).
  { rewrite Htop. split.
    - intros E d Hd. destruct (Z.lt_ge_cases 0 (user_total d)) as [Hpos|]; [|lia].
      exfalso.
      assert (Hin : In (u_user_id d, user_total d) scores).
      { apply in_map_iff. exists d. split; [reflexivity|].
        apply filter_In. split; [exact Hd | now apply Z.ltb_lt]. }
      apply (Permutation_in _ Hperm) in Hin.
      destruct ranked; [exact Hin | discriminate E].
    - intros H.
      assert (Hs : scores = []).
      { subst scores. destruct (filter _ scanned) as [|d l] eqn:Ef; [reflexivity|].
        assert (Hd : In d (filter (fun d => 0 <? user_total d) scanned))
          by (rewrite Ef; now left).
        apply filter_In in Hd. destruct Hd as [Hd Hpos].
        apply Z.ltb_lt in Hpos. specialize (H d Hd). lia. }
      rewrite Hs in Hperm. apply Permutation_nil in Hperm. now rewrite Hperm. }
  split; [|split; [|split; [|split; [|split; [|split; [|split]]]]]].
  - unfold cmd_leaderboard, bind, users_read. cbv beta iota.
    destruct (leaderboard_top (db_users db)); reflexivity.
  - subst scanned. unfold leaderboard_top, to_list.
    now rewrite firstn_firstn.
  - intros users' E. subst top scanned. unfold leaderboard_top, to_list.
    now rewrite E.
  - intros uid total Hin. rewrite Htop in Hin.
    assert (Hin' : In (uid, total) scores).
    { apply (Permutation_in _ (Permutation_sym Hperm)).
      rewrite <- (firstn_skipn 10 ranked). apply in_or_app. now left. }
    apply in_map_iff in Hin'. destruct Hin' as [d [Hd Hf]].
    apply filter_In in Hf. destruct Hf as [Hs Hpos]. apply Z.ltb_lt in Hpos.
    injection Hd as Hu Ht. subst uid total.
    split; [exact Hpos|]. exists d. auto.
  - rewrite Htop, length_firstn. lia.
  - rewrite Htop. apply StronglySorted_firstn.
    eapply StronglySorted_impl;
      [| apply (sorted_is_sorted Z.leb (fun x : Z * Z => - snd x)
                  Z_leb_total Z_leb_trans)].
    intros x y H. unfold key_le in H. apply Z.leb_le in H. lia.
  - rewrite <- Hnil. unfold cmd_leaderboard, bind, users_read. cbv beta iota.
    fold top. destruct top as [|t top']; simpl.
    + split; reflexivity.
    + split; [|discriminate]. intros E. exfalso. apply answer_inj in E.
      exact (leaderboard_header_not_no_data _ E).
  - intros Hne. split.
    + unfold cmd_leaderboard, bind, users_read. cbv beta iota. fold top.
      destruct top; [now elim Hne | reflexivity].
    + now rewrite leaderboard_lines_length.
Qed.

Example leaderboard_ranks_owners :
leaderboard_top (db_users db_board) = [(3, 5); (1, 2)].
Proof. reflexivity. Qed.

Lemma leaderboard_top_ten_of_first_hundred_witness :
  leaderboard_top (db_users db_board) <> []
  /\ snd (cmd_leaderboard (fun _ => None) db_board)
     = inr (Answer (leaderboard_header
                    ++ join_lines [leaderboard_line 1 "3" 5; leaderboard_line 2 "1" 2])).
Proof.
  assert (Hne : leaderboard_top (db_users db_board) <> []) by (vm_compute; discriminate).
  split; [exact Hne|].
  destruct (leaderboard_top_ten_of_first_hundred (fun _ => None) db_board)
    as [_ [_ [_ [_ [_ [_ [_ H]]]]]]].
  destruct (H Hne) as [Hr _]. rewrite Hr. reflexivity.
Defined.

(* ================================================================== *)
(** ** The rarity selector *)

(** C9. [RARITY_CHOICES] has 100 entries in which Legendary occurs 2, Epic
    8, Rare 20 and Common 70 times, each tier exactly its weight, and the
    weights sum to 100.  [pick_rarity] returns the entry at a draw below
    100, so it always returns one of the four labels, and of the 100 equally
    likely draws exactly [weight t] give tier [t]: the probability of [t]
    is [weight t / 100].  A call depends on its own draw alone. *)
Theorem rarity_pool_matches_weights :
  List.length RARITY_CHOICES = 100%nat
  /\ sum_weights = 100%nat
  /\ (forall t w, In (t, w) RARITY_WEIGHTS ->
        count_occ string_dec RARITY_CHOICES t = w
        /\ draws_giving t = w
        /\ tier_probability t == Z.of_nat w # Pos.of_nat sum_weights)
  /\ count_occ string_dec RARITY_CHOICES "Legendary" = 2%nat
  /\ count_occ string_dec RARITY_CHOICES "Epic" = 8%nat
  /\ count_occ string_dec RARITY_CHOICES "Rare" = 20%nat
  /\ count_occ string_dec RARITY_CHOICES "Common" = 70%nat
  /\ (forall r, exists t,
        pick_rarity r = Some t
        /\ In t ["Legendary"; "Epic"; "Rare"; "Common"]
        /\ nth_error RARITY_CHOICES (Nat.modulo r 100) = Some t)
  /\ (forall r, (r < 100)%nat -> pick_rarity r = nth_error RARITY_CHOICES r)
  /\ (forall t, ~ In t ["Legendary"; "Epic"; "Rare"; "Common"] ->
        count_occ string_dec RARITY_CHOICES t = 0%nat).
Proof.
  split; [reflexivity|]. split; [reflexivity|].
  split.
  { intros t w Hin. simpl in Hin.
    destruct Hin as [E|[E|[E|[E|[]]]]]; injection E as <- <-;
      (split; [vm_compute; reflexivity|]);
      (split; [vm_compute; reflexivity|]); vm_compute; reflexivity. }
  split; [vm_compute; reflexivity|]. split; [vm_compute; reflexivity|].
  split; [vm_compute; reflexivity|]. split; [vm_compute; reflexivity|].
  split.
  { intros r. destruct (pick_rarity_in_pool r) as [t [Ht Hin]].
    exists t. split; [exact Ht|]. split; [exact Hin|].
    now rewrite <- pick_rarity_mod. }
  split.
  { intros r Hr. rewrite pick_rarity_mod. now rewrite Nat.mod_small. }
  intros t Hn. apply count_occ_not_In. intros Hin. apply Hn.
  assert (Hall : forallb (fun t' => existsb (String.eqb t') tier_names) RARITY_CHOICES
                 = true) by (vm_compute; reflexivity).
  rewrite forallb_forall in Hall. specialize (Hall t Hin).
  apply existsb_exists in Hall. destruct Hall as [t' [Ht' Heq]].
  apply String.eqb_eq in Heq. now subst.
Qed.

Lemma rarity_pool_matches_weights_witness :
  count_occ string_dec RARITY_CHOICES "Epic" = 8%nat
  /\ draws_giving "Epic" = 8%nat
  /\ tier_probability "Epic" == 8 # 100.
Proof.
  destruct rarity_pool_matches_weights as [_ [_ [H _]]].
  apply (H "Epic" 8%nat). simpl. auto.
Defined.

(* ================================================================== *)
(** ** The invariant in every store the bot reaches

    Commands handled one after the other, from a store with no pending
    roll, never leave two pending documents for one user. *)

Section RunFacts.
Variable COOLDOWN_SECONDS : Z.
Variable get_chat : Z -> option string.

Lemma cmd_inventory_reads_only (user_id : Z) (db : DB) :
  fst (cmd_inventory user_id db) = db.
Proof.
  unfold cmd_inventory, bind, users_read. cbv beta iota.
  destruct (waifus_map_of (find_one (user_is user_id) (db_users db)))
    as [|x wm]; [reflexivity|].
  pose proof (inventory_loop_store
                (sorted tuple_leb inventory_key (x :: wm)) 1 [] db) as Hst.
  destruct (inventory_loop 1 (sorted tuple_leb inventory_key (x :: wm)) [] db)
    as [db' [e|lines]]; simpl in *; congruence.
Qed.

Lemma cmd_leaderboard_reads_only (db : DB) :
  fst (cmd_leaderboard get_chat db) = db.
Proof.
  unfold cmd_leaderboard, bind, users_read. cbv beta iota.
  destruct (leaderboard_top (db_users db)); reflexivity.
Qed.

Lemma handle_keeps_invariant (c : Command) (db : DB) :
  at_most_one_pending db -> at_most_one_pending (fst (handle COOLDOWN_SECONDS get_chat c db)).
Proof.
  intros Hinv. destruct c; simpl.
  - now apply cmd_catch_keeps_invariant.
  - now apply cmd_claim_keeps_invariant.
  - now rewrite cmd_inventory_reads_only.
  - now rewrite cmd_leaderboard_reads_only.
  - exact Hinv.
  - exact Hinv.
Qed.

Lemma handle_all_keeps_invariant (cs : list Command) :
  forall db, at_most_one_pending db -> at_most_one_pending (handle_all COOLDOWN_SECONDS get_chat cs db).
Proof.
  induction cs as [|c cs IH]; intros db Hinv; simpl; [exact Hinv|].
  apply IH. now apply handle_keeps_invariant.
Qed.

Lemma reachable_at_most_one_pending (cs : list Command) (db : DB) :
  db_pending db = [] -> at_most_one_pending (handle_all COOLDOWN_SECONDS get_chat cs db).
Proof.
  intros Hnil. apply handle_all_keeps_invariant.
  intros v. rewrite Hnil. simpl. lia.
Qed.
End RunFacts.

(* ================================================================== *)
(** ** More about the catalog and [/catch] *)

(** X1. [choose_random_waifu_async] returns [None] exactly on an empty
    catalog, and what it returns otherwise is a document of the catalog. *)
Theorem choose_random_waifu_from_catalog (r : nat) (db : DB) :
  (choose_random_waifu_async r db = None <-> db_waifus db = [])
  /\ (forall w, choose_random_waifu_async r db = Some w -> In w (db_waifus db)).
Proof.
  unfold choose_random_waifu_async, count_documents.
  destruct (db_waifus db) as [|w0 ws] eqn:E.
  - simpl. split; [tauto | discriminate].
  - assert (Hlt : (Nat.modulo r (List.length (w0 :: ws)) < List.length (w0 :: ws))%nat)
      by (apply Nat.mod_upper_bound; simpl; lia).
    replace (Z.of_nat (List.length (w0 :: ws)) =? 0) with false
      by (symmetry; apply Z.eqb_neq; simpl List.length; lia).
    destruct (nth_error (w0 :: ws) (Nat.modulo r (List.length (w0 :: ws))))
      as [w|] eqn:En.
    + split; [split; discriminate|].
      intros w' Hw'. injection Hw' as <-. eapply nth_error_In. exact En.
    + apply nth_error_None in En. lia.
Qed.

Lemma choose_random_waifu_some (r : nat) (db : DB) :
  db_waifus db <> [] -> exists w, choose_random_waifu_async r db = Some w.
Proof.
  intros Hne. destruct (choose_random_waifu_async r db) as [w|] eqn:E.
  - now exists w.
  - exfalso. apply Hne.
    unfold choose_random_waifu_async, count_documents in E.
    destruct (db_waifus db) as [|w0 ws]; [reflexivity|].
    assert (Hlt : (Nat.modulo r (List.length (w0 :: ws)) < List.length (w0 :: ws))%nat)
      by (apply Nat.mod_upper_bound; simpl; lia).
    replace (Z.of_nat (List.length (w0 :: ws)) =? 0) with false in E
      by (symmetry; apply Z.eqb_neq; simpl List.length; lia).
    destruct (nth_error (w0 :: ws) (Nat.modulo r (List.length (w0 :: ws))))
      eqn:En; [discriminate|].
    apply nth_error_None in En. lia.
Qed.

(** X2. Off cooldown and with an empty catalog, [/catch] answers
    "No waifus loaded yet." and writes nothing: no pending roll, and no
    [last_catch], so no cooldown starts. *)
Theorem catch_on_empty_catalog
    (COOLDOWN_SECONDS user_id now : Z) (r_waifu r_rarity : nat) (photo_ok : bool)
    (db : DB) :
  COOLDOWN_SECONDS
    <= now - last_catch_of (find_one (user_is user_id) (db_users db)) ->
  db_waifus db = [] ->
  cmd_catch COOLDOWN_SECONDS user_id now r_waifu r_rarity photo_ok db
  = (db, inr (Answer no_waifus_text)).
Proof.
  intros Hcd Hnil. apply cmd_catch_no_waifus; [exact Hcd|].
  unfold choose_random_waifu_async, count_documents. now rewrite Hnil.
Qed.

Lemma catch_on_empty_catalog_witness :
  cmd_catch 15 7 100 0 0 true (mkDB [] [] [])
  = (mkDB [] [] [], inr (Answer no_waifus_text)).
Proof.
  apply (catch_on_empty_catalog 15 7 100 0 0 true (mkDB [] [] [])).
  - vm_compute. discriminate.
  - reflexivity.
Defined.

Lemma last_catch_after_roll
    (CD user_id now : Z) (rw rr : nat) (ok : bool) (db : DB) :
  CD <= now - last_catch_of (find_one (user_is user_id) (db_users db)) ->
  db_waifus db <> [] ->
  last_catch_of
    (find_one (user_is user_id)
       (db_users (fst (cmd_catch CD user_id now rw rr ok db)))) = now.
Proof.
  intros Hcd Hne.
  destruct (choose_random_waifu_some rw db Hne) as [w Hw].
  destruct (pick_rarity_in_pool rr) as [rarity [Hr _]].
  destruct (cmd_catch_rolls CD user_id now rw rr ok db w rarity Hcd Hw Hr)
    as [Hfst _].
  rewrite Hfst. simpl. rewrite find_one_upsert.
  - destruct (find_one (user_is user_id) (db_users db)); reflexivity.
  - intros d Hd. exact Hd.
  - unfold user_is. simpl. apply Z.eqb_refl.
Qed.



(** X4. A catch that rolls answers the caption with the name and the
    rarity rolled: as a photo when the waifu has a non-empty image and the
    photo goes through, as plain text otherwise.  A photo that fails
    changes the reply only; the store written is the same. *)
Theorem roll_reply_falls_back_to_text
    (COOLDOWN_SECONDS user_id now : Z) (r_waifu r_rarity : nat) (photo_ok : bool)
    (db : DB) (w : Waifu) (rarity : string) :
  COOLDOWN_SECONDS
    <= now - last_catch_of (find_one (user_is user_id) (db_users db)) ->
  choose_random_waifu_async r_waifu db = Some w ->
  pick_rarity r_rarity = Some rarity ->
  snd (cmd_catch COOLDOWN_SECONDS user_id now r_waifu r_rarity photo_ok db)
  = inr (match w_img w with
         | Some img =>
             if negb (String.eqb img "") && photo_ok
             then AnswerPhoto img (caption_text (w_name w) rarity)
             else Answer (caption_text (w_name w) rarity)
         | None => Answer (caption_text (w_name w) rarity)
         end)
  /\ fst (cmd_catch COOLDOWN_SECONDS user_id now r_waifu r_rarity true db)
     = fst (cmd_catch COOLDOWN_SECONDS user_id now r_waifu r_rarity false db).
Proof.
  intros Hcd Hw Hr. split.
  - apply Z.ltb_ge in Hcd.
    unfold cmd_catch, bind, pending_read, users_read, waifus_read. simpl.
    rewrite Hcd, Hw, Hr. unfold ret, pending_write, users_write, answer, ret.
    simpl. destruct (w_img w) as [img|]; simpl; [|reflexivity].
    destruct (String.eqb img ""), photo_ok; reflexivity.
  - destruct (cmd_catch_rolls COOLDOWN_SECONDS user_id now r_waifu r_rarity true
                db w rarity Hcd Hw Hr) as [H1 _].
    destruct (cmd_catch_rolls COOLDOWN_SECONDS user_id now r_waifu r_rarity false
                db w rarity Hcd Hw Hr) as [H2 _].
    now rewrite H1, H2.
Qed.

Lemma roll_reply_falls_back_to_text_witness :
  snd (cmd_catch 15 7 100 1 0 false db_two)
  = inr (Answer (caption_text "Bea" "Legendary")).
Proof.
  apply (roll_reply_falls_back_to_text 15 7 100 1 0 false db_two
           (mkWaifu "w2" "Bea" (Some "http://img/bea") []) "Legendary").
  - vm_compute. discriminate.
  - reflexivity.
  - reflexivity.
Defined.

(* ================================================================== *)
(** ** One user's commands and the other users *)

Lemma user_is_other (u v : Z) (d : UserDoc) :
  u <> v -> user_is u d = true -> user_is v d = false.
Proof.
  unfold user_is. intros Hne H. apply Z.eqb_eq in H. apply Z.eqb_neq. congruence.
Qed.

Lemma filter_upsert_other {A : Type} (p q : A -> bool) (f : A -> A) (ins : A)
    (c : list A) :
  (forall d, p d = true -> q d = false /\ q (f d) = false) ->
  q ins = false ->
  filter q (update_one_upsert p f ins c) = filter q c.
Proof.
  intros Hf Hins. unfold update_one_upsert. destruct (existsb p c).
  - now apply filter_update_one_other.
  - rewrite filter_app. simpl. rewrite Hins. apply app_nil_r.
Qed.

Lemma users_of_after_catch
    (CD user_id now : Z) (rw rr : nat) (ok : bool) (db : DB) (v : Z) :
  v <> user_id ->
  users_of v (db_users (fst (cmd_catch CD user_id now rw rr ok db)))
  = users_of v (db_users db)
  /\ pending_of v (db_pending (fst (cmd_catch CD user_id now rw rr ok db)))
     = pending_of v (db_pending db).
Proof.
  intros Hne.
  destruct (cmd_catch_cases CD user_id now rw rr ok db)
    as [Hsame | [w [rarity [Hcd [Hw Hr]]]]].
  - now rewrite Hsame.
  - destruct (cmd_catch_rolls CD user_id now rw rr ok db w rarity Hcd Hw Hr)
      as [Hfst _].
    rewrite Hfst. simpl. split.
    + unfold users_of. apply filter_upsert_other.
      * intros d Hd.
        assert (Hv : user_is v d = false)
          by (apply (user_is_other user_id v d); [congruence | exact Hd]).
        split; [exact Hv | exact Hv].
      * unfold user_is. simpl. apply Z.eqb_neq. congruence.
    + apply pending_of_upsert_other; [reflexivity | exact Hne].
Qed.

Lemma users_of_after_claim (user_id now : Z) (db : DB) (v : Z) :
  v <> user_id ->
  users_of v (db_users (fst (cmd_claim user_id now db)))
  = users_of v (db_users db)
  /\ pending_of v (db_pending (fst (cmd_claim user_id now db)))
     = pending_of v (db_pending db).
Proof.
  intros Hne.
  destruct (find_one (pending_is user_id) (db_pending db)) as [pend|] eqn:Hp.
  - rewrite (cmd_claim_store _ _ _ _ Hp). simpl. split.
    + unfold users_of. rewrite filter_update_one_other.
      * apply filter_upsert_other.
        -- intros d Hd.
           assert (Hv : user_is v d = false)
             by (apply (user_is_other user_id v d); [congruence | exact Hd]).
           split; exact Hv.
        -- unfold user_is. simpl. apply Z.eqb_neq. congruence.
      * intros d Hd.
        assert (Hv : user_is v d = false)
          by (apply (user_is_other user_id v d); [congruence | exact Hd]).
        split; exact Hv.
    + now apply pending_of_delete_other.
  - now rewrite cmd_claim_nothing.
Qed.

Lemma db_waifus_after_catch
    (CD user_id now : Z) (rw rr : nat) (ok : bool) (db : DB) :
  db_waifus (fst (cmd_catch CD user_id now rw rr ok db)) = db_waifus db.
Proof.
  destruct (cmd_catch_cases CD user_id now rw rr ok db)
    as [Hsame | [w [rarity [Hcd [Hw Hr]]]]].
  - now rewrite Hsame.
  - destruct (cmd_catch_rolls CD user_id now rw rr ok db w rarity Hcd Hw Hr)
      as [Hfst _].
    now rewrite Hfst.
Qed.

Lemma db_waifus_after_claim (user_id now : Z) (db : DB) :
  db_waifus (fst (cmd_claim user_id now db)) = db_waifus db.
Proof.
  destruct (find_one (pending_is user_id) (db_pending db)) as [pend|] eqn:Hp.
  - now rewrite (cmd_claim_store _ _ _ _ Hp).
  - now rewrite cmd_claim_nothing.
Qed.

Lemma handle_reads_only
    (CD : Z) (get_chat : Z -> option string) (c : Command) (db : DB) :
  match c with Catch _ _ _ _ _ | Claim _ _ => False | _ => True end ->
  fst (handle CD get_chat c db) = db.
Proof.
  destruct c; simpl; intros H; try contradiction.
  - apply cmd_inventory_reads_only.
  - apply cmd_leaderboard_reads_only.
  - reflexivity.
  - reflexivity.
Qed.

Lemma handle_other_user
    (CD : Z) (get_chat : Z -> option string) (c : Command) (db : DB) (v : Z) :
  command_user c <> Some v ->
  db_waifus (fst (handle CD get_chat c db)) = db_waifus db
  /\ users_of v (db_users (fst (handle CD get_chat c db)))
     = users_of v (db_users db)
  /\ pending_of v (db_pending (fst (handle CD get_chat c db)))
     = pending_of v (db_pending db).
Proof.
  intros Hc. destruct c as [u now rw rr ok | u now | u | | u | ].
  - assert (Hne : v <> u) by (intros ->; now apply Hc).
    split; [apply db_waifus_after_catch | now apply users_of_after_catch].
  - assert (Hne : v <> u) by (intros ->; now apply Hc).
    split; [apply db_waifus_after_claim | now apply users_of_after_claim].
  - rewrite handle_reads_only; simpl; auto.
  - rewrite handle_reads_only; simpl; auto.
  - rewrite handle_reads_only; simpl; auto.
  - rewrite handle_reads_only; simpl; auto.
Qed.

Lemma collection_of_users_of (v : Z) (db db' : DB) :
  users_of v (db_users db') = users_of v (db_users db) ->
  find_one (user_is v) (db_users db') = find_one (user_is v) (db_users db)
  /\ collection v db' = collection v db.
Proof.
  intros Hu.
  assert (Hfu : find_one (user_is v) (db_users db')
                = find_one (user_is v) (db_users db)).
  { rewrite !find_one_filter. unfold users_of in Hu. now rewrite Hu. }
  split; [exact Hfu|]. unfold collection. now rewrite Hfu.
Qed.

(** X5. No command changes the catalog, and a command of one user leaves
    every other user's documents in [db.users] and [db.pending] as they
    were: their collection, their [last_catch] and their pending roll. *)
Theorem command_touches_only_its_user
    (COOLDOWN_SECONDS : Z) (get_chat : Z -> option string) (c : Command)
    (db : DB) (v : Z) :
  command_user c <> Some v ->
  let db' := fst (handle COOLDOWN_SECONDS get_chat c db) in
  db_waifus db' = db_waifus db
  /\ users_of v (db_users db') = users_of v (db_users db)
  /\ pending_of v (db_pending db') = pending_of v (db_pending db)
  /\ find_one (user_is v) (db_users db') = find_one (user_is v) (db_users db)
  /\ find_one (pending_is v) (db_pending db')
     = find_one (pending_is v) (db_pending db)
  /\ collection v db' = collection v db.
Proof.
  intros Hc db'.
  destruct (handle_other_user COOLDOWN_SECONDS get_chat c db v Hc)
    as [Hw [Hu Hp]].
  destruct (collection_of_users_of v db db' Hu) as [Hfu Hcol].
  repeat split; try assumption.
  rewrite !find_one_filter. unfold pending_of in Hp. fold db' in Hp.
  now rewrite Hp.
Qed.

Lemma command_touches_only_its_user_witness :
  collection 7 (fst (handle 15 (fun _ => None) (Catch 8 100 0 0 true) db_reroll))
  = collection 7 db_reroll.
Proof.
  apply (command_touches_only_its_user 15 (fun _ => None) (Catch 8 100 0 0 true)
           db_reroll 7).
  simpl. intros H. discriminate H.
Defined.

(* ================================================================== *)
(** ** More about [/claim] *)

Lemma dict_get_none_keys {V : Type} (k : string) (d : dict V) :
  dict_get k d = None <-> ~ In k (map fst d).
Proof.
  induction d as [|[k' v'] d IH]; simpl.
  - tauto.
  - destruct (String.eqb k k') eqn:E.
    + apply String.eqb_eq in E. subst k'. split; [discriminate|]. tauto.
    + apply String.eqb_neq in E. rewrite IH. split.
      * intros H [H1|H1]; [congruence | tauto].
      * tauto.
Qed.

Lemma dict_set_absent {V : Type} (k : string) (v : V) (d : dict V) :
  dict_get k d = None -> dict_set k v d = d ++ [(k, v)].
Proof.
  induction d as [|[k' v'] d IH]; simpl; [reflexivity|].
  destruct (String.eqb k k'); [discriminate|].
  intros H. now rewrite IH.
Qed.

Lemma dict_set_present_keys {V : Type} (k : string) (v : V) (d : dict V) :
  dict_get k d <> None -> map fst (dict_set k v d) = map fst d.
Proof.
  induction d as [|[k' v'] d IH]; simpl; [congruence|].
  destruct (String.eqb k k'); simpl; [reflexivity|].
  intros H. now rewrite IH.
Qed.

(** What [cmd_claim] sends once it has found the pending roll. *)
Lemma cmd_claim_reply (user_id now : Z) (db : DB) (pend : Pending) :
  find_one (pending_is user_id) (db_pending db) = Some pend ->
  snd (cmd_claim user_id now db)
  = match dict_get (p_waifu_id pend)
            (claim_update (waifu_entry_of pend now) (collection user_id db)) with
    | None => inl (KeyError (p_waifu_id pend))
    | Some info =>
        match e_name info, e_rarity info, e_count info with
        | None, _, _ => inl (KeyError "name")
        | Some _, None, _ => inl (KeyError "rarity")
        | Some _, Some _, None => inl (KeyError "count")
        | Some name, Some rarity, Some count =>
            inr (Answer (claimed_text name rarity count))
        end
    end.
Proof.
  intros H. unfold cmd_claim, bind, pending_read, users_write, users_read,
    pending_write. simpl. rewrite H. simpl.
  rewrite collection_after_upsert. fold (collection user_id db).
  fold (waifu_entry_of pend now).
  set (m := claim_update (waifu_entry_of pend now) (collection user_id db)).
  unfold field.
  destruct (dict_get (p_waifu_id pend) m) as [info|]; simpl; [|reflexivity].
  destruct (e_name info); simpl; [|reflexivity].
  destruct (e_rarity info); simpl; [|reflexivity].
  destruct (e_count info); simpl; reflexivity.
Qed.

(** X6. Claiming a waifu the user does not own appends the entry
    [{name, img, rarity, count: 1}] of the pending roll after the entries
    already there, and answers with that name, that rarity and count 1. *)
Theorem claim_of_new_waifu_appends_entry
    (user_id now : Z) (db : DB) (pend : Pending) :
  find_one (pending_is user_id) (db_pending db) = Some pend ->
  dict_get (p_waifu_id pend) (collection user_id db) = None ->
  collection user_id (fst (cmd_claim user_id now db))
  = collection user_id db
    ++ [(p_waifu_id pend,
         mkEntry (Some (p_name pend)) (p_img pend) (Some (p_rarity pend)) (Some 1))]
  /\ snd (cmd_claim user_id now db)
     = inr (Answer (claimed_text (p_name pend) (p_rarity pend) 1)).
Proof.
  intros Hp Hnew.
  assert (Hupd : claim_update (waifu_entry_of pend now) (collection user_id db)
                 = collection user_id db
                   ++ [(p_waifu_id pend,
                        mkEntry (Some (p_name pend)) (p_img pend)
                          (Some (p_rarity pend)) (Some 1))]).
  { unfold claim_update. simpl. rewrite Hnew. now apply dict_set_absent. }
  split.
  - now rewrite (collection_after_claim _ _ _ _ Hp).
  - rewrite (cmd_claim_reply _ _ _ _ Hp).
    change (p_waifu_id pend) with (we_waifu_id (waifu_entry_of pend now)) at 1.
    rewrite claim_update_new by exact Hnew. reflexivity.
Qed.

Lemma claim_of_new_waifu_appends_entry_witness :
  snd (cmd_claim 7 200
         (mkDB [] [] [mkPending 7 "w1" "Aria" None "Rare" (Some 100)]))
  = inr (Answer (claimed_text "Aria" "Rare" 1)).
Proof.
  apply (claim_of_new_waifu_appends_entry 7 200
           (mkDB [] [] [mkPending 7 "w1" "Aria" None "Rare" (Some 100)])
           (mkPending 7 "w1" "Aria" None "Rare" (Some 100)));
    reflexivity.
Defined.

(** X7. Claiming a waifu the user owns answers with the name and the
    rarity stored in the collection and with the count after the
    increment, whatever name and rarity the pending roll carries. *)
Theorem claim_of_owned_waifu_reports_stored_entry
    (user_id now : Z) (db : DB) (pend : Pending) (info : Entry)
    (name rarity : string) :
  find_one (pending_is user_id) (db_pending db) = Some pend ->
  dict_get (p_waifu_id pend) (collection user_id db) = Some info ->
  e_name info = Some name ->
  e_rarity info = Some rarity ->
  snd (cmd_claim user_id now db)
  = inr (Answer (claimed_text name rarity (get_default (e_count info) 1 + 1))).
Proof.
  intros Hp Hget Hn Hr.
  rewrite (cmd_claim_reply _ _ _ _ Hp).
  change (p_waifu_id pend) with (we_waifu_id (waifu_entry_of pend now)) at 1.
  rewrite (claim_update_owned _ _ info) by exact Hget.
  simpl. now rewrite Hn, Hr.
Qed.

Lemma claim_of_owned_waifu_reports_stored_entry_witness :
  snd (cmd_claim 7 200 db_reroll)
  = inr (Answer (claimed_text "Aria" "Common" 2)).
Proof.
  apply (claim_of_owned_waifu_reports_stored_entry 7 200 db_reroll
           (mkPending 7 "w1" "Aria" None "Legendary" (Some 100))
           (mkEntry (Some "Aria") None (Some "Common") (Some 1)));
    reflexivity.
Defined.

(** X8. When the owned entry has no name, or a name and no rarity, the
    claim ends in [KeyError] on that field while building its reply: by
    then the incremented count is stored and the pending roll is deleted. *)
Theorem claim_raises_after_its_writes
    (user_id now : Z) (db : DB) (pend : Pending) (info : Entry) :
  find_one (pending_is user_id) (db_pending db) = Some pend ->
  dict_get (p_waifu_id pend) (collection user_id db) = Some info ->
  e_name info = None \/ e_rarity info = None ->
  snd (cmd_claim user_id now db)
  = inl (KeyError (match e_name info with None => "name" | Some _ => "rarity" end))
  /\ dict_get (p_waifu_id pend) (collection user_id (fst (cmd_claim user_id now db)))
     = Some (mkEntry (e_name info) (e_img info) (e_rarity info)
               (Some (get_default (e_count info) 1 + 1)))
  /\ db_pending (fst (cmd_claim user_id now db))
     = delete_one (pending_is user_id) (db_pending db).
Proof.
  intros Hp Hget Hmiss. split; [|split].
  - rewrite (cmd_claim_reply _ _ _ _ Hp).
    change (p_waifu_id pend) with (we_waifu_id (waifu_entry_of pend now)) at 1.
    rewrite (claim_update_owned _ _ info) by exact Hget. simpl.
    destruct (e_name info); [|reflexivity].
    destruct Hmiss as [H|H]; [discriminate|]. now rewrite H.
  - rewrite (collection_after_claim _ _ _ _ Hp).
    change (p_waifu_id pend) with (we_waifu_id (waifu_entry_of pend now)).
    now apply claim_update_owned.
  - now rewrite (cmd_claim_store _ _ _ _ Hp).
Qed.

Lemma claim_raises_after_its_writes_witness :
  snd (cmd_claim 7 200
         (mkDB []
            [mkUser 7 None (Some [("w1", mkEntry None None (Some "Rare") (Some 4))])]
            [mkPending 7 "w1" "Aria" None "Rare" (Some 100)]))
  = inl (KeyError "name").
Proof.
  apply (claim_raises_after_its_writes 7 200
           (mkDB []
              [mkUser 7 None (Some [("w1", mkEntry None None (Some "Rare") (Some 4))])]
              [mkPending 7 "w1" "Aria" None "Rare" (Some 100)])
           (mkPending 7 "w1" "Aria" None "Rare" (Some 100))
           (mkEntry None None (Some "Rare") (Some 4))).
  - reflexivity.
  - reflexivity.
  - left. reflexivity.
Defined.

Lemma last_catch_after_claim (user_id now : Z) (db : DB) :
  last_catch_of
    (find_one (user_is user_id) (db_users (fst (cmd_claim user_id now db))))
  = last_catch_of (find_one (user_is user_id) (db_users db)).
Proof.
  destruct (find_one (pending_is user_id) (db_pending db)) as [pend|] eqn:Hp.
  - rewrite (cmd_claim_store _ _ _ _ Hp). simpl.
    rewrite find_one_update_one by (intros d Hd; exact Hd).
    rewrite find_one_upsert.
    + destruct (find_one (user_is user_id) (db_users db)); reflexivity.
    + auto.
    + unfold user_is. simpl. apply Z.eqb_refl.
  - now rewrite cmd_claim_nothing.
Qed.

(** X9. A claim leaves the user's [last_catch] as it was, so claiming does
    not end the cooldown: after a roll at [now1] and a claim, a catch at
    [now2] with [now2 - now1 < COOLDOWN_SECONDS] still answers "Wait" and
    changes nothing. *)
Theorem claim_does_not_reset_cooldown
    (COOLDOWN_SECONDS user_id now1 now_claim now2 : Z) (rw1 rr1 rw2 rr2 : nat)
    (ok1 ok2 : bool) (db : DB) :
  COOLDOWN_SECONDS
    <= now1 - last_catch_of (find_one (user_is user_id) (db_users db)) ->
  db_waifus db <> [] ->
  now2 - now1 < COOLDOWN_SECONDS ->
  let db1 := fst (cmd_catch COOLDOWN_SECONDS user_id now1 rw1 rr1 ok1 db) in
  let db2 := fst (cmd_claim user_id now_claim db1) in
  last_catch_of (find_one (user_is user_id) (db_users db2)) = now1
  /\ cmd_catch COOLDOWN_SECONDS user_id now2 rw2 rr2 ok2 db2
     = (db2, inr (Answer (wait_text (COOLDOWN_SECONDS - (now2 - now1))))).
Proof.
  intros Hcd Hne Hsoon db1 db2.
  assert (Hlast : last_catch_of (find_one (user_is user_id) (db_users db2)) = now1).
  { subst db2. rewrite last_catch_after_claim. subst db1.
    now apply last_catch_after_roll. }
  split; [exact Hlast|].
  rewrite cmd_catch_on_cooldown; rewrite Hlast; [reflexivity | exact Hsoon].
Qed.

Lemma claim_does_not_reset_cooldown_witness :
  snd (cmd_catch 15 7 110 1 1 true
         (fst (cmd_claim 7 105 (fst (cmd_catch 15 7 100 0 0 true db_two)))))
  = inr (Answer (wait_text 5)).
Proof.
  destruct (claim_does_not_reset_cooldown 15 7 100 105 110 0 0 1 1 true true db_two)
    as [_ H].
  - vm_compute. discriminate.
  - discriminate.
  - vm_compute. reflexivity.
  - now rewrite H.
Defined.

(** X10. A claim keeps the keys of the collection in their order: an owned
    id keeps its place, a new id goes last; and keys that were distinct
    stay distinct. *)
Theorem claim_keeps_key_order
    (user_id now : Z) (db : DB) (pend : Pending) :
  find_one (pending_is user_id) (db_pending db) = Some pend ->
  map fst (collection user_id (fst (cmd_claim user_id now db)))
  = (if dict_mem (p_waifu_id pend) (collection user_id db)
     then map fst (collection user_id db)
     else map fst (collection user_id db) ++ [p_waifu_id pend])
  /\ (NoDup (map fst (collection user_id db)) ->
      NoDup (map fst (collection user_id (fst (cmd_claim user_id now db))))).
Proof.
  intros Hp. rewrite (collection_after_claim _ _ _ _ Hp).
  set (m := collection user_id db).
  assert (Hkeys : map fst (claim_update (waifu_entry_of pend now) m)
                  = if dict_mem (p_waifu_id pend) m
                    then map fst m else map fst m ++ [p_waifu_id pend]).
  { unfold claim_update, dict_mem. simpl.
    destruct (dict_get (p_waifu_id pend) m) as [info|] eqn:E.
    - apply dict_set_present_keys. congruence.
    - rewrite dict_set_absent by exact E. rewrite map_app. reflexivity. }
  split; [exact Hkeys|].
  intros Hnd. rewrite Hkeys. unfold dict_mem.
  destruct (dict_get (p_waifu_id pend) m) eqn:E; [exact Hnd|].
  apply dict_get_none_keys in E.
  apply NoDup_app; [exact Hnd | repeat constructor; auto | ].
  intros x Hx [<-|[]]. exact (E Hx).
Qed.

Lemma claim_keeps_key_order_witness :
  map fst (collection 7 (fst (cmd_claim 7 200 db_reroll))) = ["w1"].
Proof.
  apply (claim_keeps_key_order 7 200 db_reroll
           (mkPending 7 "w1" "Aria" None "Legendary" (Some 100))).
  reflexivity.
Defined.

(* ================================================================== *)
(** ** What stays in a collection *)

Lemma grown_from_refl (info : Entry) : grown_from info info.
Proof. unfold grown_from. repeat split; lia. Qed.

Lemma grown_from_trans (a b c : Entry) :
  grown_from a b -> grown_from b c -> grown_from a c.
Proof.
  unfold grown_from. intros [H1 [H2 [H3 H4]]] [K1 [K2 [K3 K4]]].
  repeat split; try congruence. lia.
Qed.

Lemma entry_after_claim (user_id now : Z) (db : DB) (k : string) (info : Entry) :
  dict_get k (collection user_id db) = Some info ->
  exists info',
    dict_get k (collection user_id (fst (cmd_claim user_id now db))) = Some info'
    /\ grown_from info info'.
Proof.
  intros Hget.
  destruct (find_one (pending_is user_id) (db_pending db)) as [pend|] eqn:Hp.
  - rewrite (collection_after_claim _ _ _ _ Hp).
    destruct (string_dec k (p_waifu_id pend)) as [->|Hne].
    + change (p_waifu_id pend) with (we_waifu_id (waifu_entry_of pend now)).
      rewrite (claim_update_owned _ _ info) by exact Hget.
      eexists. split; [reflexivity|]. unfold grown_from. simpl.
      repeat split. lia.
    + rewrite claim_update_other by exact Hne.
      exists info. split; [exact Hget | apply grown_from_refl].
  - rewrite cmd_claim_nothing by exact Hp.
    exists info. split; [exact Hget | apply grown_from_refl].
Qed.

Lemma option_eq_dec_Z (o : option Z) (u : Z) : {o = Some u} + {o <> Some u}.
Proof.
  destruct o as [v|]; [|right; discriminate].
  destruct (Z.eq_dec v u) as [->|Hne]; [now left | right; congruence].
Qed.

Lemma entry_after_handle
    (CD : Z) (get_chat : Z -> option string) (c : Command) (db : DB)
    (u : Z) (k : string) (info : Entry) :
  dict_get k (collection u db) = Some info ->
  exists info',
    dict_get k (collection u (fst (handle CD get_chat c db))) = Some info'
    /\ grown_from info info'.
Proof.
  intros Hget.
  assert (Hsame : collection u (fst (handle CD get_chat c db)) = collection u db ->
                  exists info',
                    dict_get k (collection u (fst (handle CD get_chat c db)))
                    = Some info' /\ grown_from info info').
  { intros E. rewrite E. exists info. split; [exact Hget | apply grown_from_refl]. }
  destruct (option_eq_dec_Z (command_user c) u) as [Hc|Hc].
  - destruct c as [u' now rw rr ok | u' now | u' | | u' | ]; simpl in Hc;
      try discriminate Hc; try (injection Hc as ->).
    + apply Hsame. simpl. apply collection_after_catch.
    + simpl. now apply entry_after_claim.
    + apply Hsame. now rewrite handle_reads_only.
    + apply Hsame. now rewrite handle_reads_only.
  - apply Hsame.
    destruct (handle_other_user CD get_chat c db u Hc) as [_ [Hu _]].
    now apply collection_of_users_of.
Qed.

(** X11. Whatever commands follow, an entry of a user's collection stays
    under its key with the name, image and rarity it has, and its count
    (1 when the field is absent) never goes down: no handler removes an
    entry or rewrites its name, image or rarity. *)
Theorem owned_entries_persist
    (COOLDOWN_SECONDS : Z) (get_chat : Z -> option string) (cs : list Command)
    (db : DB) (user_id : Z) (k : string) (info : Entry) :
  dict_get k (collection user_id db) = Some info ->
  exists info',
    dict_get k (collection user_id (handle_all COOLDOWN_SECONDS get_chat cs db))
    = Some info'
    /\ e_name info' = e_name info
    /\ e_img info' = e_img info
    /\ e_rarity info' = e_rarity info
    /\ get_default (e_count info) 1 <= get_default (e_count info') 1.
Proof.
  revert db info. induction cs as [|c cs IH]; intros db info Hget.
  - exists info. simpl. repeat split; try assumption. lia.
  - destruct (entry_after_handle COOLDOWN_SECONDS get_chat c db user_id k info Hget)
      as [info1 [H1 G1]].
    destruct (IH _ _ H1) as [info' [H' [A [B [C D]]]]].
    exists info'. split; [exact H'|].
    apply (grown_from_trans info info1 info'); [exact G1|].
    unfold grown_from. auto.
Qed.

Lemma owned_entries_persist_witness :
  exists info',
    dict_get "w1"
      (collection 7
         (handle_all 15 (fun _ => None)
            [Claim 7 200; Catch 7 300 0 0 true; Claim 7 301] db_reroll))
    = Some info'
    /\ e_rarity info' = Some "Common"
    /\ 1 <= get_default (e_count info') 1.
Proof.
  destruct (owned_entries_persist 15 (fun _ => None)
              [Claim 7 200; Catch 7 300 0 0 true; Claim 7 301] db_reroll 7 "w1"
              (mkEntry (Some "Aria") None (Some "Common") (Some 1)) eq_refl)
    as [info' [H [_ [_ [Hr Hc]]]]].
  exists info'. split; [exact H|]. split; [exact Hr | exact Hc].
Defined.

(* ================================================================== *)
(** ** Rounds of catch and claim *)

Lemma choose_random_waifu_catalog (r : nat) (db db' : DB) :
  db_waifus db' = db_waifus db ->
  choose_random_waifu_async r db' = choose_random_waifu_async r db.
Proof.
  intros E. unfold choose_random_waifu_async. now rewrite E.
Qed.

Lemma pending_after_roll
    (CD user_id now : Z) (rw rr : nat) (ok : bool) (db : DB)
    (w : Waifu) (rarity : string) :
  CD <= now - last_catch_of (find_one (user_is user_id) (db_users db)) ->
  choose_random_waifu_async rw db = Some w ->
  pick_rarity rr = Some rarity ->
  find_one (pending_is user_id)
    (db_pending (fst (cmd_catch CD user_id now rw rr ok db)))
  = Some (rolled user_id w rarity now).
Proof.
  intros Hcd Hw Hr.
  destruct (cmd_catch_rolls CD user_id now rw rr ok db w rarity Hcd Hw Hr)
    as [Hfst _].
  rewrite Hfst. simpl. rewrite find_one_upsert.
  - destruct (find_one (pending_is user_id) (db_pending db)); reflexivity.
  - intros _ _. unfold pending_is. simpl. apply Z.eqb_refl.
  - unfold pending_is. simpl. apply Z.eqb_refl.
Qed.

Lemma owned_count_after_claim_update (we : WaifuEntry) (m : dict Entry) (k : string) :
  owned_count k (claim_update we m)
  = if String.eqb k (we_waifu_id we) then owned_count k m + 1 else owned_count k m.
Proof.
  unfold owned_count. destruct (String.eqb k (we_waifu_id we)) eqn:E.
  - apply String.eqb_eq in E. subst k.
    destruct (dict_get (we_waifu_id we) m) as [info|] eqn:G.
    + now rewrite (claim_update_owned we m info G).
    + now rewrite (claim_update_new we m G).
  - apply String.eqb_neq in E. now rewrite claim_update_other.
Qed.

Lemma play_round_counts
    (CD user_id : Z) (db : DB) (r : Round) (w : Waifu) :
  CD <= r_catch_at r - last_catch_of (find_one (user_is user_id) (db_users db)) ->
  choose_random_waifu_async (r_waifu_draw r) db = Some w ->
  (forall k,
     owned_count k (collection user_id (play_round CD user_id db r))
     = if String.eqb k (w_waifu_id w)
       then owned_count k (collection user_id db) + 1
       else owned_count k (collection user_id db))
  /\ last_catch_of
       (find_one (user_is user_id) (db_users (play_round CD user_id db r)))
     = r_catch_at r
  /\ db_waifus (play_round CD user_id db r) = db_waifus db.
Proof.
  intros Hcd Hw. unfold play_round.
  destruct (pick_rarity_in_pool (r_rarity_draw r)) as [rarity [Hr _]].
  pose proof (pending_after_roll CD user_id (r_catch_at r) (r_waifu_draw r)
                (r_rarity_draw r) (r_photo_ok r) db w rarity Hcd Hw Hr) as Hp.
  split; [|split].
  - intros k. rewrite (collection_after_claim _ _ _ _ Hp).
    rewrite collection_after_catch.
    now rewrite owned_count_after_claim_update.
  - rewrite last_catch_after_claim. apply last_catch_after_roll; [exact Hcd|].
    intros Hnil. unfold choose_random_waifu_async, count_documents in Hw.
    rewrite Hnil in Hw. discriminate Hw.
  - now rewrite db_waifus_after_claim, db_waifus_after_catch.
Qed.

(** X12. Rounds of catch then claim, each catch at least the cooldown
    after the roll before it and each drawing a waifu with the id [wid],
    add one to the user's count of [wid] per round and leave the counts of
    the other ids alone. *)
Theorem rounds_add_one_each
    (COOLDOWN_SECONDS user_id : Z) (wid : string) (rounds : list Round) (db : DB) :
  spaced COOLDOWN_SECONDS
    (last_catch_of (find_one (user_is user_id) (db_users db))) rounds ->
  (forall r, In r rounds ->
     exists w, choose_random_waifu_async (r_waifu_draw r) db = Some w
               /\ w_waifu_id w = wid) ->
  owned_count wid (collection user_id (play_rounds COOLDOWN_SECONDS user_id rounds db))
  = owned_count wid (collection user_id db) + Z.of_nat (List.length rounds)
  /\ (forall k, k <> wid ->
        owned_count k
          (collection user_id (play_rounds COOLDOWN_SECONDS user_id rounds db))
        = owned_count k (collection user_id db)).
Proof.
  revert db. induction rounds as [|r rounds IH]; intros db Hsp Hdraw.
  - simpl. split; [lia | reflexivity].
  - destruct Hsp as [Hcd Hsp].
    destruct (Hdraw r (or_introl eq_refl)) as [w [Hw Hid]].
    destruct (play_round_counts COOLDOWN_SECONDS user_id db r w Hcd Hw)
      as [Hcount [Hlast Hcat]].
    cbn [play_rounds fold_left].
    fold (play_rounds COOLDOWN_SECONDS user_id rounds
            (play_round COOLDOWN_SECONDS user_id db r)).
    destruct (IH (play_round COOLDOWN_SECONDS user_id db r)) as [IH1 IH2].
    + now rewrite Hlast.
    + intros r' Hr'. destruct (Hdraw r' (or_intror Hr')) as [w' [Hw' Hid']].
      exists w'. split; [|exact Hid'].
      now rewrite (choose_random_waifu_catalog _ _ _ Hcat).
    + split.
      * rewrite IH1, Hcount, Hid, String.eqb_refl.
        change (List.length (r :: rounds)) with (S (List.length rounds)). lia.
      * intros k Hk. rewrite (IH2 k Hk), Hcount, Hid.
        apply String.eqb_neq in Hk. now rewrite Hk.
Qed.

Lemma rounds_add_one_each_witness :
  owned_count "w1"
    (collection 7
       (play_rounds 15 7
          [mkRound 100 101 0 0 true; mkRound 115 130 2 50 false; mkRound 200 201 4 99 true]
          db_two))
  = 3.
Proof.
  apply (rounds_add_one_each 15 7 "w1"
           [mkRound 100 101 0 0 true; mkRound 115 130 2 50 false;
            mkRound 200 201 4 99 true] db_two).
  - simpl. repeat split; vm_compute; discriminate.
  - intros r [<-|[<-|[<-|[]]]]; eexists; split; reflexivity.
Defined.

(* ================================================================== *)
(** ** More about [/inventory] *)

Lemma inventory_loop_raises (db : DB) (items : list (string * Entry)) :
  forall i lines n,
    Z.of_nat n = 20 - i ->
    ~ Forall complete_entry (dict_values (firstn (S n) items)) ->
    exists key,
      inventory_loop i items lines db = (db, inl (KeyError key))
      /\ In key ["name"; "rarity"; "count"].
Proof.
  induction items as [|[wid info] items IH]; intros i lines n Hi Hbad.
  - exfalso. apply Hbad. constructor.
  - cbn [inventory_loop]. unfold bind, field.
    destruct (e_name info) as [name|] eqn:En;
      [|exists "name"; simpl; auto].
    destruct (e_rarity info) as [rarity|] eqn:Er;
      [|exists "rarity"; simpl; auto].
    destruct (e_count info) as [count|] eqn:Ec;
      [|exists "count"; simpl; auto].
    assert (Hc : complete_entry info)
      by (unfold complete_entry; rewrite En, Er, Ec; repeat split; discriminate).
    cbn [ret].
    destruct (20 <=? i) eqn:E.
    + exfalso. apply Z.leb_le in E. assert (n = 0%nat) by lia. subst n.
      apply Hbad. simpl. repeat constructor; apply Hc.
    + apply Z.leb_gt in E. destruct n as [|n]; [lia|].
      apply (IH (i + 1) _ n); [lia|].
      intros Hrest. apply Hbad. cbn [firstn dict_values map].
      constructor; [exact Hc | exact Hrest].
Qed.

(** X13. [/inventory] reads the fields of the first 20 entries of the
    sorted collection only: when these carry name, rarity and count it
    answers their lines, whatever the later entries lack; when one of them
    lacks a field it ends in [KeyError] on name, rarity or count. *)
Theorem inventory_reads_first_twenty_only (user_id : Z) (db : DB) :
  collection user_id db <> [] ->
  let items := sorted tuple_leb inventory_key (collection user_id db) in
  (Forall complete_entry (dict_values (firstn 20 items)) ->
   snd (cmd_inventory user_id db)
   = inr (Answer (collection_header
                  ++ join_lines (numbered_lines 1 (firstn 20 items)))))
  /\ (~ Forall complete_entry (dict_values (firstn 20 items)) ->
      exists key,
        snd (cmd_inventory user_id db) = inl (KeyError key)
        /\ In key ["name"; "rarity"; "count"]).
Proof.
  intros Hne items.
  unfold cmd_inventory, bind, users_read. cbv beta iota.
  fold (collection user_id db).
  destruct (collection user_id db) as [|x wm] eqn:Ecol; [now elim Hne|].
  fold items. split.
  - intros Hall.
    now rewrite (inventory_loop_first db items 1 [] 19 eq_refl Hall).
  - intros Hbad.
    destruct (inventory_loop_raises db items 1 [] 19 eq_refl Hbad)
      as [key [Hk Hin]].
    exists key. rewrite Hk. split; [reflexivity | exact Hin].
Qed.

Lemma inventory_reads_first_twenty_only_witness :
  exists lines,
    snd (cmd_inventory 1 db_long_shelf)
    = inr (Answer (collection_header ++ join_lines lines))
    /\ List.length lines = 20%nat.
Proof.
  assert (Hne : collection 1 db_long_shelf <> []) by (vm_compute; discriminate).
  destruct (inventory_reads_first_twenty_only 1 db_long_shelf Hne) as [H _].
  eexists. split.
  - apply H. vm_compute. repeat constructor; discriminate.
  - vm_compute. reflexivity.
Defined.

Lemma string_leb_refl (s : string) : String.leb s s = true.
Proof. apply string_leb_iff. now left. Qed.

Lemma tuple_leb_both (a b : Z * string) :
  tuple_leb a b && tuple_leb b a = (fst a =? fst b) && String.eqb (snd a) (snd b).
Proof.
  apply eq_true_iff_eq.
  rewrite !andb_true_iff, !tuple_leb_iff, Z.eqb_eq, String.eqb_eq.
  split.
  - intros [[H1|[H1 L1]] [H2|[H2 L2]]]; try lia.
    split; [exact H1 | now apply String.leb_antisym].
  - intros [H1 H2]. rewrite H2.
    split; right; (split; [lia | apply string_leb_refl]).
Qed.

(** X14. Entries with the same count and the same rarity label are listed
    by [/inventory] in the order the collection holds them, the order in
    which they were first claimed. *)
Theorem inventory_ties_in_insertion_order
    (user_id : Z) (db : DB) (count : Z) (rarity : string) :
  filter (fun x => (entry_count x =? count) && String.eqb (entry_rarity x) rarity)
    (sorted tuple_leb inventory_key (collection user_id db))
  = filter (fun x => (entry_count x =? count) && String.eqb (entry_rarity x) rarity)
      (collection user_id db).
Proof.
  pose proof (sorted_stable tuple_leb inventory_key tuple_leb_trans
                (- count, rarity) (collection user_id db)) as H.
  assert (Hext : forall x : string * Entry,
             key_eqv tuple_leb inventory_key (- count, rarity) x
             = (entry_count x =? count) && String.eqb (entry_rarity x) rarity).
  { intros x. unfold key_eqv. rewrite tuple_leb_both. unfold inventory_key.
    simpl. fold (entry_count x) (entry_rarity x).
    rewrite (String.eqb_sym rarity). f_equal.
    apply eq_true_iff_eq. rewrite !Z.eqb_eq. lia. }
  rewrite !(filter_ext _ _ Hext) in H. exact H.
Qed.

(* ================================================================== *)
(** ** More about [/leaderboard] *)

Lemma leaderboard_top_ranked (users : list UserDoc) :
  leaderboard_top users = firstn 10 (leaderboard_ranked users).
Proof. reflexivity. Qed.

Lemma leaderboard_ranked_scores (users : list UserDoc) :
  leaderboard_ranked users
  = sorted Z.leb (fun x : Z * Z => - snd x)
      (map (fun d => (u_user_id d, user_total d))
         (filter (fun d => 0 <? user_total d) (firstn 100 users))).
Proof.
  unfold leaderboard_ranked, to_list. now rewrite leaderboard_scores_filter.
Qed.

Lemma Z_leb_both (a b : Z) : (a <=? b) && (b <=? a) = (a =? b).
Proof.
  apply eq_true_iff_eq. rewrite andb_true_iff, !Z.leb_le, Z.eqb_eq. lia.
Qed.

(** X15. Users with equal totals are ranked in the order of their
    documents in [db.users]: the ranked pairs with total [t] are the
    scanned owners with total [t], in scan order. *)
Theorem leaderboard_ties_in_scan_order (users : list UserDoc) (t : Z) :
  filter (fun x : Z * Z => snd x =? t) (leaderboard_ranked users)
  = map (fun d => (u_user_id d, user_total d))
      (filter (fun d => (0 <? user_total d) && (user_total d =? t))
         (firstn 100 users)).
Proof.
  rewrite leaderboard_ranked_scores.
  set (scanned := firstn 100 users).
  pose proof (sorted_stable Z.leb (fun x : Z * Z => - snd x) Z_leb_trans (- t)
                (map (fun d => (u_user_id d, user_total d))
                   (filter (fun d => 0 <? user_total d) scanned))) as H.
  assert (Hext : forall x : Z * Z,
             key_eqv Z.leb (fun x : Z * Z => - snd x) (- t) x = (snd x =? t)).
  { intros x. unfold key_eqv. rewrite Z_leb_both.
    apply eq_true_iff_eq. rewrite !Z.eqb_eq. lia. }
  rewrite !(filter_ext _ _ Hext) in H. rewrite H. clear H Hext.
  induction scanned as [|d l IH]; [reflexivity|].
  cbn [filter]. destruct (0 <? user_total d); cbn [map filter snd andb].
  - destruct (user_total d =? t); cbn [map]; now rewrite IH.
  - exact IH.
Qed.

Lemma StronglySorted_app_order {A : Type} (R : A -> A -> Prop) (l1 l2 : list A) :
  StronglySorted R (l1 ++ l2) ->
  forall x y, In x l1 -> In y l2 -> R x y.
Proof.
  induction l1 as [|a l1 IH]; simpl; intros Hs x y Hx Hy; [contradiction|].
  inversion Hs as [|? ? Hs' Hall]; subst.
  destruct Hx as [<-|Hx].
  - rewrite Forall_forall in Hall. apply Hall. apply in_or_app. now right.
  - now apply IH.
Qed.

(** X16. A scanned user with a positive total is ranked, unless the
    ranking is full: then it holds 10 entries, each with a total at least
    as large as that user's. *)
Theorem leaderboard_keeps_the_largest (db : DB) (d : UserDoc) :
  In d (firstn 100 (db_users db)) ->
  0 < user_total d ->
  In (u_user_id d, user_total d) (leaderboard_top (db_users db))
  \/ (List.length (leaderboard_top (db_users db)) = 10%nat
      /\ forall e, In e (leaderboard_top (db_users db)) -> user_total d <= snd e).
Proof.
  intros Hd Hpos. rewrite leaderboard_top_ranked.
  set (ranked := leaderboard_ranked (db_users db)).
  assert (Hin : In (u_user_id d, user_total d) ranked).
  { subst ranked. rewrite leaderboard_ranked_scores.
    eapply Permutation_in; [apply sorted_perm|].
    apply in_map_iff. exists d. split; [reflexivity|].
    apply filter_In. split; [exact Hd | now apply Z.ltb_lt]. }
  assert (Hs : StronglySorted (key_le Z.leb (fun x : Z * Z => - snd x)) ranked).
  { subst ranked. unfold leaderboard_ranked.
    apply sorted_is_sorted; [apply Z_leb_total | apply Z_leb_trans]. }
  rewrite <- (firstn_skipn 10 ranked) in Hin, Hs.
  apply in_app_or in Hin. destruct Hin as [Hin|Hin]; [now left|].
  right. split.
  - rewrite length_firstn. apply Nat.min_l.
    destruct (Nat.le_gt_cases 10 (List.length ranked)) as [H|H]; [exact H|].
    rewrite skipn_all2 in Hin by lia. contradiction.
  - intros e He.
    pose proof (StronglySorted_app_order _ _ _ Hs e _ He Hin) as Hle.
    unfold key_le in Hle. apply Z.leb_le in Hle. simpl in Hle. lia.
Qed.

Lemma leaderboard_keeps_the_largest_witness :
  In (3, 5) (leaderboard_top (db_users db_board))
  \/ (List.length (leaderboard_top (db_users db_board)) = 10%nat
      /\ forall e, In e (leaderboard_top (db_users db_board)) -> 5 <= snd e).
Proof.
  apply (leaderboard_keeps_the_largest db_board
           (mkUser 3 None
              (Some [("a", mkEntry (Some "Ayu") None (Some "Epic") (Some 1));
                     ("b", mkEntry (Some "Bea") None (Some "Common") (Some 4))]))).
  - simpl. auto.
  - reflexivity.
Defined.

(* ================================================================== *)
(** ** [/profile] *)

Lemma fold_left_count_shift (infos : list Entry) (a : Z) :
  fold_left (fun acc v => acc + get_default (e_count v) 0) infos a
  = a + sum_counts infos.
Proof.
  unfold sum_counts. revert a.
  induction infos as [|x l IH]; intros a; simpl; [lia|].
  rewrite IH, (IH (get_default (e_count x) 0)). lia.
Qed.

Lemma sum_counts_cons (x : Entry) (l : list Entry) :
  sum_counts (x :: l) = get_default (e_count x) 0 + sum_counts l.
Proof.
  unfold sum_counts at 1. simpl. apply fold_left_count_shift.
Qed.

Lemma total_count_sum_counts (wm : dict Entry) :
  total_count wm = sum_counts (dict_values wm).
Proof. reflexivity. Qed.

Lemma dict_get_set {V : Type} (k r : string) (v : V) (d : dict V) :
  dict_get r (dict_set k v d) = if String.eqb r k then Some v else dict_get r d.
Proof.
  destruct (String.eqb r k) eqn:E.
  - apply String.eqb_eq in E. subst r. apply dict_get_set_same.
  - apply String.eqb_neq in E. now apply dict_get_set_other.
Qed.

Lemma sum_values_dict_set (k : string) (c : Z) (rc : dict Z) :
  sum_values (dict_set k (get_default (dict_get k rc) 0 + c) rc)
  = sum_values rc + c.
Proof.
  induction rc as [|[k' v'] rc IH]; simpl; [lia|].
  destruct (String.eqb k k') eqn:E; simpl; [lia|].
  assert (Hgen : forall v, sum_values (dict_set k v rc)
                           = sum_values rc - get_default (dict_get k rc) 0 + v).
  { clear. intros v. induction rc as [|[k1 v1] rc IH]; simpl; [lia|].
    destruct (String.eqb k k1); simpl; [lia|]. rewrite IH. lia. }
  rewrite Hgen. lia.
Qed.

Lemma dict_set_keys_nodup {V : Type} (k : string) (v : V) (d : dict V) :
  NoDup (map fst d) -> NoDup (map fst (dict_set k v d)).
Proof.
  intros Hnd. destruct (dict_get k d) eqn:E.
  - rewrite dict_set_present_keys by congruence. exact Hnd.
  - rewrite dict_set_absent by exact E. rewrite map_app. simpl.
    apply dict_get_none_keys in E.
    apply NoDup_app; [exact Hnd | repeat constructor; auto | ].
    intros x Hx [<-|[]]. exact (E Hx).
Qed.

Lemma rarity_counts_loop_spec (infos : list Entry) :
  forall rc,
    (NoDup (map fst rc) -> NoDup (map fst (rarity_counts_loop infos rc)))
    /\ sum_values (rarity_counts_loop infos rc) = sum_values rc + sum_counts infos
    /\ forall r,
         dict_get r (rarity_counts_loop infos rc)
         = if existsb (fun info => String.eqb (label_of info) r) infos
           then Some (get_default (dict_get r rc) 0
                      + sum_counts (with_label r infos))
           else dict_get r rc.
Proof.
  induction infos as [|info infos IH]; intros rc.
  - simpl. repeat split; auto. unfold sum_counts. simpl. lia.
  - cbn [rarity_counts_loop]. fold (label_of info).
    set (rc' := dict_set (label_of info)
                  (get_default (dict_get (label_of info) rc) 0
                   + get_default (e_count info) 0) rc).
    destruct (IH rc') as [Hnd [Hsum Hget]].
    split; [|split].
    + intros H. apply Hnd. subst rc'. now apply dict_set_keys_nodup.
    + rewrite Hsum. subst rc'. rewrite sum_values_dict_set, sum_counts_cons. lia.
    + intros r. rewrite Hget. subst rc'. rewrite dict_get_set.
      unfold with_label. cbn [existsb filter].
      rewrite (String.eqb_sym r (label_of info)).
      destruct (String.eqb (label_of info) r) eqn:E; cbn [orb get_default].
      * rewrite sum_counts_cons.
        apply String.eqb_eq in E. subst r.
        destruct (existsb (fun i => String.eqb (label_of i) (label_of info)) infos)
          eqn:Ex.
        -- f_equal. lia.
        -- rewrite (filter_none _ _ Ex). unfold sum_counts at 1. simpl.
           f_equal. lia.
      * reflexivity.
Qed.

Lemma string_app_empty (a b : string) :
  (a ++ b)%string = "" -> a = "" /\ b = "".
Proof.
  destruct a; simpl; [auto | discriminate].
Qed.

Lemma rarity_line_not_empty (kv : string * Z) : rarity_line kv <> "".
Proof.
  unfold rarity_line. intros E. apply string_app_empty in E.
  destruct E as [_ E]. discriminate E.
Qed.

Lemma join_rarity_lines_not_empty (kv : string * Z) (rc : dict Z) :
  String.eqb (join_lines (map rarity_line (kv :: rc))) "" = false.
Proof.
  apply String.eqb_neq. unfold join_lines. cbn [map String.concat].
  destruct (map rarity_line rc).
  - apply rarity_line_not_empty.
  - intros E. apply string_app_empty in E. destruct E as [E _].
    exact (rarity_line_not_empty kv E).
Qed.

(** X17. The breakdown [/profile] computes has one line per rarity label
    in the collection (entries without rarity under "Unknown"); the figure
    of a label is the sum of the counts of the entries with that label, a
    label no entry has is absent, and the figures add up to the total. *)
Theorem profile_counts_by_label (user_id : Z) (db : DB) :
  let infos := dict_values (collection user_id db) in
  let rarity_counts := rarity_counts_loop infos [] in
  NoDup (map fst rarity_counts)
  /\ (forall r,
        dict_get r rarity_counts
        = if existsb (fun info => String.eqb (label_of info) r) infos
          then Some (sum_counts (with_label r infos))
          else None)
  /\ sum_values rarity_counts = total_count (collection user_id db).
Proof.
  intros infos rarity_counts.
  destruct (rarity_counts_loop_spec infos []) as [Hnd [Hsum Hget]].
  split; [apply Hnd; constructor|]. split.
  - intros r. subst rarity_counts. rewrite Hget. reflexivity.
  - subst rarity_counts. rewrite Hsum. reflexivity.
Qed.

(** X18. [/profile] only reads the store.  It answers the total of the
    counts (0 for a user without document or collection) and the lines
    ["{label}: {figure}"] of the breakdown, or "None" in their place when
    the collection is empty. *)
Theorem profile_reports_total_and_breakdown (user_id : Z) (db : DB) :
  cmd_profile user_id db
  = (db,
     inr (Answer
            (profile_text (total_count (collection user_id db))
               (match collection user_id db with
                | [] => "None"
                | _ => join_lines
                         (map rarity_line
                            (rarity_counts_loop
                               (dict_values (collection user_id db)) []))
                end))))
  /\ (find_one (user_is user_id) (db_users db) = None ->
      cmd_profile user_id db = (db, inr (Answer (profile_text 0 "None")))).
Proof.
  assert (Hmain : cmd_profile user_id db
    = (db,
       inr (Answer
              (profile_text (total_count (collection user_id db))
                 (match collection user_id db with
                  | [] => "None"
                  | _ => join_lines
                           (map rarity_line
                              (rarity_counts_loop
                                 (dict_values (collection user_id db)) []))
                  end))))).
  { unfold cmd_profile, bind, users_read, answer, ret. cbv beta iota.
    fold (collection user_id db).
    destruct (collection user_id db) as [|x wm] eqn:Ecol; [reflexivity|].
    destruct (rarity_counts_loop_spec (dict_values (x :: wm)) [])
      as [_ [_ Hget]].
    specialize (Hget (label_of (snd x))).
    cbn [dict_values map existsb] in Hget.
    rewrite String.eqb_refl in Hget. cbn [orb] in Hget.
    cbn [dict_values map].
    destruct (rarity_counts_loop (snd x :: map snd wm) []) as [|kv rc];
      [discriminate Hget|].
    now rewrite join_rarity_lines_not_empty. }
  split; [exact Hmain|].
  intros Hnone. rewrite Hmain. unfold collection. rewrite Hnone. reflexivity.
Qed.

Example profile_of_mixed_collection :
  snd (cmd_profile 1 db_mixed)
  = inr (Answer (profile_text 6
                   (join_lines [rarity_line ("Rare", 5); rarity_line ("Unknown", 1)]))).
Proof. vm_compute. reflexivity. Qed.

Lemma profile_reports_total_and_breakdown_witness :
  cmd_profile 9 db_mixed = (db_mixed, inr (Answer (profile_text 0 "None"))).
Proof.
  apply (profile_reports_total_and_breakdown 9 db_mixed). reflexivity.
Defined.

(* ================================================================== *)
(** ** Seeding the catalog *)

Lemma count_documents_positive {A : Type} (d : A) (l : list A) :
  (0 <? count_documents (d :: l)) = true.
Proof.
  apply Z.ltb_lt. unfold count_documents. simpl List.length. lia.
Qed.

Lemma ensure_waifus_loaded_present (d : WaifuDoc) (l : list WaifuDoc)
    (file : option Json) :
  ensure_waifus_loaded (d :: l) file
  = (d :: l, AlreadyPresent (count_documents (d :: l))).
Proof.
  unfold ensure_waifus_loaded. now rewrite count_documents_positive.
Qed.

Lemma seed_docs_objects (items : list Json) :
  Forall is_object items ->
  forall docs,
    exists built,
      seed_docs items docs = Some (docs ++ built)
      /\ Forall2 (fun item doc => seed_doc item = Some doc) items built.
Proof.
  induction 1 as [|item items Hobj Hall IH]; intros docs.
  - exists []. simpl. rewrite app_nil_r. split; [reflexivity | constructor].
  - destruct item; try contradiction. cbn [seed_docs].
    destruct (seed_doc (JObject members)) as [doc|] eqn:Ed; [|discriminate Ed].
    destruct (IH (docs ++ [doc])) as [built [Hb Hf]].
    exists (doc :: built). split.
    + rewrite Hb, <- app_assoc. reflexivity.
    + constructor; [exact Ed | exact Hf].
Qed.

Lemma seed_docs_not_object (items : list Json) (item : Json) :
  In item items -> ~ is_object item ->
  forall docs, seed_docs items docs = None.
Proof.
  induction items as [|x items IH]; intros Hin Hno docs; [contradiction|].
  cbn [seed_docs]. destruct (seed_doc x) as [doc|] eqn:E; [|reflexivity].
  destruct Hin as [->|Hin].
  - destruct item; try discriminate E. exfalso. apply Hno. exact I.
  - now apply IH.
Qed.

(** X19. [ensure_waifus_loaded] leaves a non-empty collection as it is,
    whatever the file holds.  It changes the collection only when the
    collection is empty and the file is a non-empty JSON array; a missing
    file or another JSON value changes nothing.  Run again on its own
    result with the same file, it changes nothing more. *)
Theorem seeding_only_fills_an_empty_catalog
    (waifus : list WaifuDoc) (file : option Json) :
  (waifus <> [] ->
   ensure_waifus_loaded waifus file
   = (waifus, AlreadyPresent (count_documents waifus)))
  /\ (fst (ensure_waifus_loaded waifus file) <> waifus ->
      waifus = [] /\ exists items, file = Some (JArray items) /\ items <> [])
  /\ fst (ensure_waifus_loaded (fst (ensure_waifus_loaded waifus file)) file)
     = fst (ensure_waifus_loaded waifus file).
Proof.
  split; [|split].
  - destruct waifus as [|d l]; [congruence|]. intros _.
    apply ensure_waifus_loaded_present.
  - destruct waifus as [|d l].
    + intros Hch. split; [reflexivity|].
      unfold ensure_waifus_loaded in Hch. simpl in Hch.
      destruct file as [data|]; [|now elim Hch].
      destruct data; try (now elim Hch).
      exists items. split; [reflexivity|].
      intros ->. now apply Hch.
    + rewrite ensure_waifus_loaded_present. intros Hch. now elim Hch.
  - destruct waifus as [|d l].
    + destruct (fst (ensure_waifus_loaded [] file)) as [|d l] eqn:E.
      * exact E.
      * now rewrite ensure_waifus_loaded_present.
    + now rewrite !ensure_waifus_loaded_present.
Qed.

Lemma seeding_only_fills_an_empty_catalog_witness :
  ensure_waifus_loaded
    [mkWaifuDoc (JString "w1") (JString "Aria") JNull (JArray [])]
    (Some (JArray [JObject [("name", JString "Bea")]]))
  = ([mkWaifuDoc (JString "w1") (JString "Aria") JNull (JArray [])],
     AlreadyPresent 1).
Proof.
  apply (seeding_only_fills_an_empty_catalog
           [mkWaifuDoc (JString "w1") (JString "Aria") JNull (JArray [])]
           (Some (JArray [JObject [("name", JString "Bea")]]))).
  discriminate.
Defined.

(** X20. On an empty collection and a non-empty array of objects the
    seeding inserts one document per item, in the order of the file.  The
    document of an item has the item's [name], [img] and [tags] ([null]
    for an absent name or image, the empty array for absent tags) and as
    [waifu_id] the item's [id], or its [name] when the id is absent or
    falsy (null, false, 0, the empty string, array or object). *)
Theorem seeding_builds_one_document_per_item (items : list Json) :
  Forall is_object items ->
  items <> [] ->
  exists docs,
    ensure_waifus_loaded [] (Some (JArray items))
    = (docs, Inserted (List.length items))
    /\ Forall2
         (fun item doc =>
            exists members,
              item = JObject members
              /\ wd_name doc = get_default (dict_get "name" members) JNull
              /\ wd_img doc = get_default (dict_get "img" members) JNull
              /\ wd_tags doc = get_default (dict_get "tags" members) (JArray [])
              /\ wd_waifu_id doc
                 = (if json_truthy (get_default (dict_get "id" members) JNull)
                    then get_default (dict_get "id" members) JNull
                    else get_default (dict_get "name" members) JNull))
         items docs.
Proof.
  intros Hall Hne.
  destruct (seed_docs_objects items Hall []) as [built [Hb Hf]].
  simpl in Hb. exists built.
  assert (Hlen : List.length built = List.length items)
    by (symmetry; eapply Forall2_length; exact Hf).
  split.
  - unfold ensure_waifus_loaded. simpl. rewrite Hb.
    destruct built as [|doc built].
    + destruct items; [now elim Hne | discriminate Hlen].
    + now rewrite Hlen.
  - eapply Forall2_impl; [|exact Hf].
    intros item doc Hd. destruct item; try discriminate Hd.
    exists members. simpl in Hd. injection Hd as <-.
    repeat split; reflexivity.
Qed.

Lemma seeding_builds_one_document_per_item_witness :
  ensure_waifus_loaded []
    (Some (JArray [JObject [("id", JString ""); ("name", JString "Aria")];
                   JObject [("id", JString "w2"); ("name", JString "Bea");
                            ("img", JString "http://img/bea")]]))
  = ([mkWaifuDoc (JString "Aria") (JString "Aria") JNull (JArray []);
      mkWaifuDoc (JString "w2") (JString "Bea") (JString "http://img/bea")
        (JArray [])],
     Inserted 2).
Proof.
  destruct (seeding_builds_one_document_per_item
              [JObject [("id", JString ""); ("name", JString "Aria")];
               JObject [("id", JString "w2"); ("name", JString "Bea");
                        ("img", JString "http://img/bea")]])
    as [docs [H _]].
  - repeat constructor.
  - discriminate.
  - rewrite H. vm_compute in H. injection H as <-. reflexivity.
Defined.

(** X21. When an item of the array is not an object, building its document
    raises [AttributeError]; the documents are inserted after the loop, so
    nothing is inserted, not even the documents of the items before it. *)
Theorem seeding_aborts_on_a_non_object (items : list Json) (item : Json) :
  In item items ->
  ~ is_object item ->
  ensure_waifus_loaded [] (Some (JArray items)) = ([], AttributeError).
Proof.
  intros Hin Hno. unfold ensure_waifus_loaded. simpl.
  now rewrite (seed_docs_not_object items item Hin Hno).
Qed.

Lemma seeding_aborts_on_a_non_object_witness :
  ensure_waifus_loaded []
    (Some (JArray [JObject [("name", JString "Aria")]; JString "Bea"]))
  = ([], AttributeError).
Proof.
  apply (seeding_aborts_on_a_non_object
           [JObject [("name", JString "Aria")]; JString "Bea"] (JString "Bea")).
  - simpl. auto.
  - intros H. exact H.
Defined.

(* ================================================================== *)
(** ** Stores reached from a fresh one *)

Section MembersAfter.
Context {A : Type}.
Variable p : A -> bool.

Lemma In_update_one (f : A -> A) (c : list A) (x : A) :
  In x (update_one p f c) -> In x c \/ exists d, In d c /\ p d = true /\ x = f d.
Proof.
  induction c as [|d c IH]; simpl; [tauto|].
  destruct (p d) eqn:E; simpl.
  - intros [<-|H]; [right; exists d; auto | auto].
  - intros [<-|H]; [auto|]. destruct (IH H) as [H'|[d' [H1 [H2 H3]]]]; [auto|].
    right. exists d'. auto.
Qed.

Lemma In_update_one_upsert (f : A -> A) (ins : A) (c : list A) (x : A) :
  In x (update_one_upsert p f ins c) ->
  In x c \/ (exists d, In d c /\ p d = true /\ x = f d) \/ x = ins.
Proof.
  unfold update_one_upsert. destruct (existsb p c).
  - intros H. destruct (In_update_one f c x H); auto.
  - intros H. apply in_app_or in H. destruct H as [H|[<-|[]]]; auto.
Qed.

Lemma In_delete_one (c : list A) (x : A) :
  In x (delete_one p c) -> In x c.
Proof.
  induction c as [|d c IH]; simpl; [tauto|].
  destruct (p d); simpl; [auto|]. intros [<-|H]; auto.
Qed.

Lemma find_one_In (c : list A) (d : A) :
  find_one p c = Some d -> In d c /\ p d = true.
Proof. unfold find_one. apply find_some. Qed.
End MembersAfter.

Lemma In_dict_set {V : Type} (k : string) (v : V) (d : dict V) (x : string * V) :
  In x (dict_set k v d) -> In x d \/ snd x = v.
Proof.
  induction d as [|[k' v'] d IH]; simpl.
  - intros [<-|[]]. now right.
  - destruct (String.eqb k k'); simpl.
    + intros [<-|H]; [now right | auto].
    + intros [<-|H]; [auto|]. destruct (IH H); auto.
Qed.

Lemma dict_get_In {V : Type} (k : string) (v : V) (d : dict V) :
  dict_get k d = Some v -> In v (dict_values d).
Proof.
  unfold dict_values. induction d as [|[k' v'] d IH]; simpl; [discriminate|].
  destruct (String.eqb k k'); [intros H; injection H as <-; auto | auto].
Qed.

Lemma written_collection (user_id : Z) (db : DB) :
  written_store db -> Forall written_entry (dict_values (collection user_id db)).
Proof.
  intros [_ Hu]. unfold collection, waifus_map_of.
  destruct (find_one (user_is user_id) (db_users db)) as [d|] eqn:E;
    [|constructor].
  apply find_one_In in E. destruct E as [Hin _].
  destruct (u_waifus_map d) as [wm|] eqn:Em; [|constructor].
  simpl. now apply (Hu d wm).
Qed.

Lemma written_claim_update (we : WaifuEntry) (m : dict Entry) :
  In (we_rarity we) tier_names ->
  Forall written_entry (dict_values m) ->
  Forall written_entry (dict_values (claim_update we m)).
Proof.
  intros Hr Hall. rewrite Forall_forall in *. intros info Hin.
  unfold dict_values in Hin. apply in_map_iff in Hin.
  destruct Hin as [[k info'] [<- Hin]]. simpl.
  unfold claim_update in Hin.
  destruct (dict_get (we_waifu_id we) m) as [old|] eqn:E.
  - apply In_dict_set in Hin. destruct Hin as [Hin|Hin].
    + apply Hall. unfold dict_values. apply in_map_iff.
      exists (k, info'). auto.
    + simpl in Hin. subst info'.
      destruct (Hall old (dict_get_In _ _ _ E)) as [Hn [Hrar [c [Hc Hc1]]]].
      unfold written_entry. simpl. split; [exact Hn|]. split; [exact Hrar|].
      rewrite Hc. simpl. exists (c + 1). split; [reflexivity | lia].
  - apply In_dict_set in Hin. destruct Hin as [Hin|Hin].
    + apply Hall. unfold dict_values. apply in_map_iff.
      exists (k, info'). auto.
    + simpl in Hin. subst info'. unfold written_entry. simpl.
      split; [discriminate|]. split.
      * exists (we_rarity we). auto.
      * exists 1. split; [reflexivity | lia].
Qed.

Lemma cmd_catch_keeps_written
    (CD user_id now : Z) (rw rr : nat) (ok : bool) (db : DB) :
  written_store db -> written_store (fst (cmd_catch CD user_id now rw rr ok db)).
Proof.
  intros Hw.
  destruct (cmd_catch_cases CD user_id now rw rr ok db)
    as [Hsame | [w [rarity [Hcd [Hwf Hr]]]]].
  - now rewrite Hsame.
  - destruct (cmd_catch_rolls CD user_id now rw rr ok db w rarity Hcd Hwf Hr)
      as [Hfst _].
    rewrite Hfst. destruct Hw as [Hp Hu]. split; simpl.
    + assert (Hrar : In rarity tier_names).
      { destruct (pick_rarity_in_pool rr) as [t [Ht Hin]]. congruence. }
      intros p Hin. apply In_update_one_upsert in Hin.
      destruct Hin as [Hin|[[d [_ [_ ->]]]| ->]]; [now apply Hp | exact Hrar | exact Hrar].
    + intros d wm Hin Hm. apply In_update_one_upsert in Hin.
      destruct Hin as [Hin|[[d' [Hin' [_ ->]]]| ->]].
      * now apply (Hu d wm).
      * simpl in Hm. now apply (Hu d' wm).
      * discriminate Hm.
Qed.

Lemma cmd_claim_keeps_written (user_id now : Z) (db : DB) :
  written_store db -> written_store (fst (cmd_claim user_id now db)).
Proof.
  intros Hw.
  destruct (find_one (pending_is user_id) (db_pending db)) as [pend|] eqn:Hp.
  - rewrite (cmd_claim_store _ _ _ _ Hp).
    pose proof (written_collection user_id db Hw) as Hcol.
    destruct Hw as [Hpend Hu]. split; simpl.
    + intros p Hin. apply In_delete_one in Hin. now apply Hpend.
    + assert (Hnew : Forall written_entry
                       (dict_values (claim_update (waifu_entry_of pend now)
                                       (collection user_id db)))).
      { apply written_claim_update; [|exact Hcol]. simpl.
        apply Hpend. now apply (find_one_In _ _ _ Hp). }
      assert (Hups : forall d wm,
                 In d (update_one_upsert (user_is user_id) (fun d => d)
                         (mkUser user_id None None) (db_users db)) ->
                 u_waifus_map d = Some wm ->
                 Forall written_entry (dict_values wm)).
      { intros d wm Hin Hm. apply In_update_one_upsert in Hin.
        destruct Hin as [Hin|[[d' [Hin' [_ ->]]]| ->]].
        - now apply (Hu d wm).
        - now apply (Hu d' wm).
        - discriminate Hm. }
      intros d wm Hin Hm. apply In_update_one in Hin.
      destruct Hin as [Hin|[d' [_ [_ ->]]]].
      * now apply (Hups d wm).
      * simpl in Hm. injection Hm as <-. exact Hnew.
  - now rewrite cmd_claim_nothing.
Qed.

Lemma handle_keeps_written
    (CD : Z) (get_chat : Z -> option string) (c : Command) (db : DB) :
  written_store db -> written_store (fst (handle CD get_chat c db)).
Proof.
  intros Hw. destruct c; simpl.
  - now apply cmd_catch_keeps_written.
  - now apply cmd_claim_keeps_written.
  - now rewrite cmd_inventory_reads_only.
  - now rewrite cmd_leaderboard_reads_only.
  - exact Hw.
  - exact Hw.
Qed.

Lemma handle_all_keeps_written
    (CD : Z) (get_chat : Z -> option string) (cs : list Command) :
  forall db, written_store db -> written_store (handle_all CD get_chat cs db).
Proof.
  induction cs as [|c cs IH]; intros db Hw; simpl; [exact Hw|].
  apply IH. now apply handle_keeps_written.
Qed.

Lemma fresh_store_written (db : DB) :
  db_users db = [] -> db_pending db = [] -> written_store db.
Proof.
  intros Hu Hp. split.
  - intros p Hin. rewrite Hp in Hin. contradiction.
  - intros d wm Hin. rewrite Hu in Hin. contradiction.
Qed.

(** X22. From a store with no user and no pending roll, whatever the
    catalog and whatever commands are handled, every entry of every
    collection has a name, one of the four rarity labels and a count of at
    least 1, and every pending roll has one of the four rarity labels. *)
Theorem reached_entries_are_written
    (COOLDOWN_SECONDS : Z) (get_chat : Z -> option string) (cs : list Command)
    (db : DB) :
  db_users db = [] ->
  db_pending db = [] ->
  let db' := handle_all COOLDOWN_SECONDS get_chat cs db in
  (forall p, In p (db_pending db') ->
     In (p_rarity p) ["Legendary"; "Epic"; "Rare"; "Common"])
  /\ (forall user_id k info,
        dict_get k (collection user_id db') = Some info ->
        exists name rarity count,
          e_name info = Some name
          /\ e_rarity info = Some rarity
          /\ In rarity ["Legendary"; "Epic"; "Rare"; "Common"]
          /\ e_count info = Some count
          /\ 1 <= count).
Proof.
  intros Hu Hp db'.
  assert (Hw : written_store db')
    by (subst db'; apply handle_all_keeps_written; now apply fresh_store_written).
  split; [exact (proj1 Hw)|].
  intros user_id k info Hget.
  pose proof (written_collection user_id db' Hw) as Hall.
  rewrite Forall_forall in Hall.
  destruct (Hall info (dict_get_In _ _ _ Hget)) as [Hn [[r [Hr Hin]] [c [Hc Hc1]]]].
  destruct (e_name info) as [name|]; [|congruence].
  exists name, r, c. auto.
Qed.

Lemma reached_entries_are_written_witness :
  exists name rarity count,
    dict_get "w2"
      (collection 7
         (handle_all 15 (fun _ => None)
            [Catch 7 100 1 99 true; Claim 7 101] db_two))
    = Some (mkEntry (Some name) (Some "http://img/bea") (Some rarity) (Some count))
    /\ 1 <= count.
Proof.
  destruct (reached_entries_are_written 15 (fun _ => None)
              [Catch 7 100 1 99 true; Claim 7 101] db_two eq_refl eq_refl)
    as [_ H].
  destruct (H 7 "w2" (mkEntry (Some "Bea") (Some "http://img/bea")
                        (Some "Common") (Some 1)) eq_refl)
    as [name [rarity [count [Hn [Hr [_ [Hc Hc1]]]]]]].
  exists "Bea", "Common", 1. split; [reflexivity | lia].
Defined.

Lemma written_entry_complete (info : Entry) :
  written_entry info -> complete_entry info.
Proof.
  intros [Hn [[r [Hr _]] [c [Hc _]]]]. unfold complete_entry.
  rewrite Hr, Hc. repeat split; [exact Hn | discriminate | discriminate].
Qed.

Lemma handle_answers_on_written
    (CD : Z) (get_chat : Z -> option string) (c : Command) (db : DB) :
  written_store db ->
  exists reply, snd (handle CD get_chat c db) = inr reply.
Proof.
  intros Hw. destruct c as [u now rw rr ok | u now | u | | u | ]; simpl.
  - destruct (Z.lt_ge_cases
                (now - last_catch_of (find_one (user_is u) (db_users db))) CD)
      as [Hlt|Hge].
    + rewrite cmd_catch_on_cooldown by exact Hlt. eexists. reflexivity.
    + destruct (choose_random_waifu_async rw db) as [w|] eqn:Hc.
      * destruct (pick_rarity_in_pool rr) as [t [Ht _]].
        exact (proj2 (cmd_catch_rolls CD u now rw rr ok db w t Hge Hc Ht)).
      * rewrite cmd_catch_no_waifus by assumption. eexists. reflexivity.
  - destruct (find_one (pending_is u) (db_pending db)) as [pend|] eqn:Hp.
    + rewrite (cmd_claim_reply _ _ _ _ Hp).
      assert (Hnew : Forall written_entry
                       (dict_values (claim_update (waifu_entry_of pend now)
                                       (collection u db)))).
      { apply written_claim_update; [|now apply written_collection]. simpl.
        apply (proj1 Hw). now apply (find_one_In _ _ _ Hp). }
      assert (Hsome : exists info,
                 dict_get (p_waifu_id pend)
                   (claim_update (waifu_entry_of pend now) (collection u db))
                 = Some info).
      { change (p_waifu_id pend) with (we_waifu_id (waifu_entry_of pend now)).
        destruct (dict_get (we_waifu_id (waifu_entry_of pend now))
                    (collection u db)) as [old|] eqn:E.
        - rewrite (claim_update_owned _ _ old E). eexists. reflexivity.
        - rewrite (claim_update_new _ _ E). eexists. reflexivity. }
      destruct Hsome as [info Hinfo]. rewrite Hinfo.
      rewrite Forall_forall in Hnew.
      destruct (Hnew info (dict_get_In _ _ _ Hinfo))
        as [Hn [[r [Hr _]] [cnt [Hc _]]]].
      destruct (e_name info) as [name|]; [|congruence].
      rewrite Hr, Hc. eexists. reflexivity.
    + rewrite cmd_claim_nothing by exact Hp. eexists. reflexivity.
  - unfold cmd_inventory, bind, users_read. cbv beta iota.
    fold (collection u db).
    pose proof (written_collection u db Hw) as Hall.
    destruct (collection u db) as [|x wm]; [eexists; reflexivity|].
    rewrite inventory_loop_complete.
    + eexists. reflexivity.
    + unfold dict_values in *.
      eapply Permutation_Forall; [apply Permutation_map, sorted_perm|].
      eapply Forall_impl; [|exact Hall]. apply written_entry_complete.
  - unfold cmd_leaderboard, bind, users_read. cbv beta iota.
    destruct (leaderboard_top (db_users db)); eexists; reflexivity.
  - eexists. reflexivity.
  - eexists. reflexivity.
Qed.

(** X23. From a store with no user and no pending roll, no command ends in
    [KeyError] or [IndexError], whatever the clock, the draws and the
    commands handled before: the fields that [/claim] and [/inventory]
    read with [info[...]] are there, and [pick_rarity] never draws from an
    empty pool.  The catalog documents are those of the model, with string
    ids and names; the exceptions of the driver are not in the model. *)
Theorem no_key_or_index_error_from_a_fresh_store
    (COOLDOWN_SECONDS : Z) (get_chat : Z -> option string) (cs : list Command)
    (c : Command) (db : DB) :
  db_users db = [] ->
  db_pending db = [] ->
  (forall key,
     snd (handle COOLDOWN_SECONDS get_chat c
            (handle_all COOLDOWN_SECONDS get_chat cs db))
     <> inl (KeyError key))
  /\ snd (handle COOLDOWN_SECONDS get_chat c
            (handle_all COOLDOWN_SECONDS get_chat cs db))
     <> inl IndexError.
Proof.
  intros Hu Hp.
  destruct (handle_answers_on_written COOLDOWN_SECONDS get_chat c
              (handle_all COOLDOWN_SECONDS get_chat cs db)) as [reply Hr].
  - apply handle_all_keeps_written. now apply fresh_store_written.
  - rewrite Hr. split; [intros key|]; discriminate.
Qed.

Lemma no_key_or_index_error_from_a_fresh_store_witness :
  (forall key,
     snd (handle 15 (fun _ => None) (Inventory 7)
            (handle_all 15 (fun _ => None)
               [Catch 7 100 1 99 true; Claim 7 101] db_two))
     <> inl (KeyError key))
  /\ snd (handle 15 (fun _ => None) (Claim 7 131)
            (handle_all 15 (fun _ => None)
               [Catch 7 100 1 99 true; Claim 7 101; Catch 7 130 1 0 true] db_two))
     <> inl IndexError.
Proof.
  split.
  - apply (no_key_or_index_error_from_a_fresh_store 15 (fun _ => None)
             [Catch 7 100 1 99 true; Claim 7 101] (Inventory 7) db_two);
      reflexivity.
  - apply (no_key_or_index_error_from_a_fresh_store 15 (fun _ => None)
             [Catch 7 100 1 99 true; Claim 7 101; Catch 7 130 1 0 true]
             (Claim 7 131) db_two);
      reflexivity.
Defined.

(* ================================================================== *)
(** ** The two clocks *)

Lemma pending_in_step_length (db : DB) (user_id : Z) :
  pending_in_step db ->
  (List.length (pending_of user_id (db_pending db)) <= 1)%nat.
Proof.
  intros H. specialize (H user_id).
  destruct (pending_of user_id (db_pending db)) as [|p [|q l]]; simpl;
    [lia | lia | contradiction].
Qed.

Lemma pending_in_step_same (db db' : DB) (v : Z) :
  users_of v (db_users db') = users_of v (db_users db) ->
  pending_of v (db_pending db') = pending_of v (db_pending db) ->
  match pending_of v (db_pending db) with
  | [] => True
  | [p] => exists d now,
             find_one (user_is v) (db_users db) = Some d
             /\ u_last_catch d = Some now /\ p_ts p = Some now
  | _ => False
  end ->
  match pending_of v (db_pending db') with
  | [] => True
  | [p] => exists d now,
             find_one (user_is v) (db_users db') = Some d
             /\ u_last_catch d = Some now /\ p_ts p = Some now
  | _ => False
  end.
Proof.
  intros Hu Hp H. rewrite Hp.
  destruct (collection_of_users_of v db db' Hu) as [Hf _]. now rewrite Hf.
Qed.

Lemma handle_keeps_in_step
    (CD : Z) (get_chat : Z -> option string) (c : Command) (db : DB) :
  pending_in_step db -> pending_in_step (fst (handle CD get_chat c db)).
Proof.
  intros Hinv v.
  destruct (option_eq_dec_Z (command_user c) v) as [Hc|Hc].
  - destruct c as [u now rw rr ok | u now | u | | u | ]; simpl in Hc;
      try discriminate Hc; try (injection Hc as ->); simpl.
    + destruct (cmd_catch_cases CD v now rw rr ok db)
        as [Hsame | [w [rarity [Hcd [Hw Hr]]]]].
      * rewrite Hsame. apply Hinv.
      * destruct (cmd_catch_rolls CD v now rw rr ok db w rarity Hcd Hw Hr)
          as [Hfst _].
        rewrite Hfst. simpl.
        rewrite pending_of_upsert_self;
          [| reflexivity | now apply pending_in_step_length].
        rewrite find_one_upsert.
        -- destruct (find_one (user_is v) (db_users db)) as [d|].
           ++ exists (touch now d), now. auto.
           ++ exists (mkUser v (Some now) None), now. auto.
        -- intros d Hd. exact Hd.
        -- unfold user_is. simpl. apply Z.eqb_refl.
    + destruct (find_one (pending_is v) (db_pending db)) as [pend|] eqn:Hp.
      * rewrite (cmd_claim_store _ _ _ _ Hp). simpl. unfold pending_of.
        rewrite filter_delete_one_self; [exact I|].
        now apply pending_in_step_length.
      * rewrite cmd_claim_nothing by exact Hp. apply Hinv.
    + rewrite cmd_inventory_reads_only. apply Hinv.
    + apply Hinv.
  - destruct (handle_other_user CD get_chat c db v Hc) as [_ [Hu Hp]].
    exact (pending_in_step_same db _ v Hu Hp (Hinv v)).
Qed.

Lemma handle_all_keeps_in_step
    (CD : Z) (get_chat : Z -> option string) (cs : list Command) :
  forall db, pending_in_step db -> pending_in_step (handle_all CD get_chat cs db).
Proof.
  induction cs as [|c cs IH]; intros db H; simpl; [exact H|].
  apply IH. now apply handle_keeps_in_step.
Qed.

(** X24. From a store with no pending roll, whatever commands are handled,
    a user's pending roll carries as [ts] the user's [last_catch]: the
    [last_ts] that [cmd_catch] reads from [db.pending] and the
    [last_catch] it reads from [db.users] are the same time whenever a
    roll is pending. *)
Theorem pending_ts_is_last_catch
    (COOLDOWN_SECONDS : Z) (get_chat : Z -> option string) (cs : list Command)
    (db : DB) (user_id : Z) (p : Pending) :
  db_pending db = [] ->
  find_one (pending_is user_id)
    (db_pending (handle_all COOLDOWN_SECONDS get_chat cs db)) = Some p ->
  p_ts p
  = Some (last_catch_of
            (find_one (user_is user_id)
               (db_users (handle_all COOLDOWN_SECONDS get_chat cs db)))).
Proof.
  intros Hnil Hp.
  assert (Hinv : pending_in_step (handle_all COOLDOWN_SECONDS get_chat cs db)).
  { apply handle_all_keeps_in_step. intros v. rewrite Hnil. exact I. }
  specialize (Hinv user_id). rewrite find_one_filter in Hp.
  fold (pending_of user_id
          (db_pending (handle_all COOLDOWN_SECONDS get_chat cs db))) in Hp.
  destruct (pending_of user_id
              (db_pending (handle_all COOLDOWN_SECONDS get_chat cs db)))
    as [|q [|q' l]]; simpl in Hp; try discriminate Hp; [|contradiction].
  injection Hp as ->.
  destruct Hinv as [d [now [Hf [Hl Ht]]]].
  rewrite Hf, Ht. simpl. now rewrite Hl.
Qed.

Lemma pending_ts_is_last_catch_witness :
  p_ts (rolled 7 (mkWaifu "w2" "Bea" (Some "http://img/bea") []) "Common" 120)
  = Some (last_catch_of
            (find_one (user_is 7)
               (db_users (handle_all 15 (fun _ => None)
                            [Catch 7 100 0 0 true; Claim 7 101;
                             Catch 7 120 1 99 true] db_two)))).
Proof.
  apply (pending_ts_is_last_catch 15 (fun _ => None)
           [Catch 7 100 0 0 true; Claim 7 101; Catch 7 120 1 99 true]
           db_two 7); reflexivity.
Defined.
